(** * Raja-Mantri game backend: a model of [main.py] and its properties

    The server keeps two module-level dictionaries, [rooms] and [players],
    and every request handler reads and writes them.  The model threads the
    pair of dictionaries explicitly through each handler; a handler returns
    what the Python function returns (or the exception that leaves it)
    together with the store as the handler left it.

    - [rooms] and [players] are keyed by identifier and never iterated, so
      they are finite maps ([gmap string _]).
    - The per-room dictionaries [roles], [scores] and [leaderboard] are
      iterated ([.items()], [next(...)]) and returned to the caller, so they
      keep Python's insertion order: an association list with the update
      rule of [dict.__setitem__].
    - [new_id()] and [random.shuffle] are the two sources of
      nondeterminism; their outcomes are arguments of the handlers. *)

From stdpp Require Import gmap strings list fin_maps pretty.

Open Scope Z_scope.

(** ** Insertion-ordered dictionaries *)

Module PyDict.

Section Dict.
Context {V : Type}.

Definition t := list (string * V).

Definition empty : t := [].

(** [d.get(k)]; [d[k]] raises [KeyError] where this is [None]. *)
Fixpoint get (k : string) (d : t) : option V :=
  match d with
  | [] => None
  | (k', v) :: d' => if decide (k = k') then Some v else get k d'
  end.

(** [d[k] = v]: an existing key keeps its position, a new one goes last. *)
Fixpoint set (k : string) (v : V) (d : t) : t :=
  match d with
  | [] => [(k, v)]
  | (k', v') :: d' =>
      if decide (k = k') then (k', v) :: d' else (k', v') :: set k v d'
  end.

End Dict.

Arguments t : clear implicits.

End PyDict.

(** ** Data model *)

Inductive Role := Raja | Mantri | Chor | Sipahi.

#[global] Instance Role_eq_dec : EqDecision Role.
Proof. solve_decision. Defined.

Module Player.

(** A value of the [players] dictionary. *)
Record t := mk { name : string; roomId : string; totalScore : Z }.

(** [p["totalScore"] = pts] *)
Definition set_totalScore (pts : Z) (p : t) : t :=
  {| name := name p; roomId := roomId p; totalScore := pts |}.

End Player.

Module Guess.

(** The value stored under ["guess"]: [{"by": ..., "target": ...}]. *)
Record t := mk { by_ : string; target : string }.

End Guess.

Module Room.

(** A value of the [rooms] dictionary.  ["players"] and ["status"] are set
    at creation; the other keys are absent until a handler writes them. *)
Record t := mk {
  players : list string;
  status : string;
  roles : option (PyDict.t Role);
  mantriId : option string;
  guess : option Guess.t;
  scores : option (PyDict.t Z);
  leaderboard : option (PyDict.t Z)
}.

(** [room["players"].append(pid)] *)
Definition append_player (pid : string) (r : t) : t :=
  mk (players r ++ [pid]) (status r) (roles r) (mantriId r) (guess r)
     (scores r) (leaderboard r).

(** [room["status"] = st] *)
Definition set_status (st : string) (r : t) : t :=
  mk (players r) st (roles r) (mantriId r) (guess r) (scores r) (leaderboard r).

(** [room["roles"] = d] *)
Definition set_roles (d : PyDict.t Role) (r : t) : t :=
  mk (players r) (status r) (Some d) (mantriId r) (guess r) (scores r)
     (leaderboard r).

(** [room["mantriId"] = pid] *)
Definition set_mantriId (pid : string) (r : t) : t :=
  mk (players r) (status r) (roles r) (Some pid) (guess r) (scores r)
     (leaderboard r).

(** [room["guess"] = g] *)
Definition set_guess (g : Guess.t) (r : t) : t :=
  mk (players r) (status r) (roles r) (mantriId r) (Some g) (scores r)
     (leaderboard r).

(** [room["scores"] = d] *)
Definition set_scores (d : PyDict.t Z) (r : t) : t :=
  mk (players r) (status r) (roles r) (mantriId r) (guess r) (Some d)
     (leaderboard r).

(** The ["leaderboard"] entry as a whole (present or absent). *)
Definition set_leaderboard (d : option (PyDict.t Z)) (r : t) : t :=
  mk (players r) (status r) (roles r) (mantriId r) (guess r) (scores r) d.

End Room.

Record State := mkState {
  rooms : gmap string Room.t;
  players : gmap string Player.t
}.

(** Both dictionaries are empty when the module is loaded. *)
Definition initial : State := {| rooms := ∅; players := ∅ |}.

(** Exceptions other than [HTTPException] that can leave a handler. *)
Inductive PyExn := KeyError | IndexError | StopIteration.

(** How a handler ends: it returns a payload, raises [HTTPException], or an
    uncaught Python exception propagates out of it. *)
Inductive Result (A : Type) :=
| Return (a : A)
| HTTPException (status_code : Z) (detail : string)
| Uncaught (e : PyExn).

Arguments Return {A} a.
Arguments HTTPException {A} status_code detail.
Arguments Uncaught {A} e.

(** ** Request bodies *)

Record CreateRoomReq := { cr_name : string }.

Record JoinRoomReq := { jr_roomId : string; jr_name : string }.

Record GuessReq := { gr_roomId : string; gr_mantriId : string; gr_targetId : string }.

(** ** Response payloads *)

Record IdResp := { ir_roomId : string; ir_playerId : string; ir_message : string }.

Record PlayerEntry := { pe_playerId : string; pe_name : string }.

Record PlayersResp := { pr_roomId : string; pr_players : list PlayerEntry }.

Record AssignResp := { ar_roomId : string; ar_rolesAssigned : bool; ar_message : string }.

Inductive RoleResp :=
| RoleError (error : string)
| RoleOf (playerId : string) (role : Role).

Record GuessResp := { gs_roomId : string; gs_message : string; gs_roundScores : PyDict.t Z }.

Record ResultResp := {
  rr_roomId : string;
  rr_roles : PyDict.t Role;
  rr_guess : option Guess.t;
  rr_roundScores : option (PyDict.t Z);
  rr_leaderboard : PyDict.t Z
}.

(** ** Room Manager *)

(** [home] *)
Definition home (s : State) : Result string * State :=
  (Return "Game backend running (step 1)!", s).

(** [len(xs)] rendered as in an f-string. *)
Definition len_str {A} (xs : list A) : string := pretty (length xs).

(** [create_room]; [room_id] and [player_id] are the two [new_id()] results. *)
Definition create_room (room_id player_id : string) (req : CreateRoomReq)
  (s : State) : Result IdResp * State :=
  let room := Room.mk [player_id] "waiting" None None None None None in
  let rooms' := <[room_id := room]> (rooms s) in
  let players' := <[player_id := Player.mk (cr_name req) room_id 0]> (players s) in
  (Return {| ir_roomId := room_id; ir_playerId := player_id;
             ir_message := "Room created. Waiting for players (1/4)." |},
   {| rooms := rooms'; players := players' |}).

(** [join_room]; [player_id] is the [new_id()] result, drawn only after the
    three checks have passed. *)
Definition join_room (player_id : string) (req : JoinRoomReq)
  (s : State) : Result IdResp * State :=
  match rooms s !! jr_roomId req with
  | None => (HTTPException 404 "Room not found", s)
  | Some room =>
      if decide (Room.status room ≠ "waiting") then
        (HTTPException 400 "Room not accepting joins right now", s)
      else if decide (4 ≤ length (Room.players room))%nat then
        (HTTPException 400 "Room is full (4 players max)", s)
      else
        let room' := Room.append_player player_id room in
        (Return {| ir_roomId := jr_roomId req; ir_playerId := player_id;
                   ir_message :=
                     "Joined room (" +:+ len_str (Room.players room') +:+ "/4)." |},
         {| rooms := <[jr_roomId req := room']> (rooms s);
            players := <[player_id := Player.mk (jr_name req) (jr_roomId req) 0]>
                         (players s) |})
  end.

(** [get_players]: the comprehension looks every roster id up in [players]
    and raises [KeyError] at the first one that is missing. *)
Definition players_list (players : gmap string Player.t) (roster : list string)
  : option (list PlayerEntry) :=
  mapM (λ pid, p ← players !! pid;
               Some {| pe_playerId := pid; pe_name := Player.name p |}) roster.

Definition get_players (roomId : string) (s : State)
  : Result PlayersResp * State :=
  match rooms s !! roomId with
  | None => (HTTPException 404 "Room not found", s)
  | Some room =>
      match players_list (players s) (Room.players room) with
      | None => (Uncaught KeyError, s)
      | Some l => (Return {| pr_roomId := roomId; pr_players := l |}, s)
      end
  end.

(** ** Round Engine *)

(** The list literal that [assign_roles] shuffles. *)
Definition roles : list Role := [Raja; Mantri; Chor; Sipahi].

(** [for i, pid in enumerate(room["players"]): room_roles[pid] = roles[i]],
    started at index [i]; [None] is the [IndexError] of [roles[i]]. *)
Fixpoint zip_roles (i : nat) (roster : list string) (roles : list Role)
  (room_roles : PyDict.t Role) : option (PyDict.t Role) :=
  match roster with
  | [] => Some room_roles
  | pid :: rest =>
      match roles !! i with
      | None => None
      | Some r => zip_roles (S i) rest roles (PyDict.set pid r room_roles)
      end
  end.

(** [next(pid for pid, role in d.items() if role == r)]; [None] is the
    [StopIteration] of an exhausted generator. *)
Fixpoint holder (r : Role) (d : PyDict.t Role) : option string :=
  match d with
  | [] => None
  | (pid, role) :: d' => if decide (role = r) then Some pid else holder r d'
  end.

Definition set_room (roomId : string) (room : Room.t) (s : State) : State :=
  {| rooms := <[roomId := room]> (rooms s); players := players s |}.

(** [assign_roles]; [shuffled] is the list [roles] as [random.shuffle] left
    it. *)
Definition assign_roles (roomId : string) (shuffled : list Role) (s : State)
  : Result AssignResp * State :=
  match rooms s !! roomId with
  | None => (HTTPException 404 "Room not found", s)
  | Some room =>
      if decide (length (Room.players room) ≠ 4%nat) then
        (HTTPException 400 "Need exactly 4 players to assign roles", s)
      else
        match zip_roles 0 (Room.players room) shuffled PyDict.empty with
        | None => (Uncaught IndexError, s)
        | Some room_roles =>
            let room1 := Room.set_roles room_roles room in
            match holder Mantri room_roles with
            | None => (Uncaught StopIteration, set_room roomId room1 s)
            | Some mantri_id =>
                let room2 := Room.set_mantriId mantri_id room1 in
                (Return {| ar_roomId := roomId; ar_rolesAssigned := true;
                           ar_message :=
                             "Roles assigned. Each player can now view their role privately." |},
                 set_room roomId room2 s)
            end
        end
  end.

(** [get_my_role]: both error cases are ordinary return values; the
    subscript [rooms[roomId]["roles"]] raises [KeyError] when the room has no
    ["roles"] key. *)
Definition get_my_role (roomId playerId : string) (s : State)
  : Result RoleResp * State :=
  match rooms s !! roomId with
  | None => (Return (RoleError "Room not found"), s)
  | Some room =>
      match Room.roles room with
      | None => (Uncaught KeyError, s)
      | Some room_roles =>
          match PyDict.get playerId room_roles with
          | None => (Return (RoleError "Player not found"), s)
          | Some role => (Return (RoleOf playerId role), s)
          end
      end
  end.

Definition BASE_POINTS (role : Role) : Z :=
  match role with
  | Raja => 1000
  | Mantri => 800
  | Sipahi => 500
  | Chor => 0
  end.

(** [{ pid: BASE_POINTS[role] for pid, role in room["roles"].items() }] *)
Definition base_scores (room_roles : PyDict.t Role) : PyDict.t Z :=
  (λ kv, (kv.1, BASE_POINTS kv.2)) <$> room_roles.

(** The loop that closes [mantri_guess]:
    [players[pid]["totalScore"] = players.get(pid, {}).get("totalScore", 0) + pts]
    raises [KeyError] when [pid] is not a key of [players] (the right-hand side
    is evaluated, the subscript on the left fails); then the leaderboard is
    created if absent and its entry incremented.  The loop returns the
    player table and the leaderboard as they are when it stops. *)
Fixpoint commit_scores (items : PyDict.t Z) (players : gmap string Player.t)
  (leaderboard : option (PyDict.t Z))
  : option PyExn * gmap string Player.t * option (PyDict.t Z) :=
  match items with
  | [] => (None, players, leaderboard)
  | (pid, pts) :: rest =>
      match players !! pid with
      | None => (Some KeyError, players, leaderboard)
      | Some p =>
          let players' :=
            <[pid := Player.set_totalScore (Player.totalScore p + pts) p]> players in
          let lb := default PyDict.empty leaderboard in
          let lb' := PyDict.set pid (default 0 (PyDict.get pid lb) + pts) lb in
          commit_scores rest players' (Some lb')
      end
  end.

Definition msg_correct : string := "Mantri guessed correctly. No points transfer.".

Definition msg_incorrect : string :=
  "Mantri guessed incorrectly. Chor stole Mantri's points.".

(** The round score map and message of [mantri_guess], given the true Chor;
    [None] is the [KeyError] of [round_scores[real_chor] += stolen]. *)
Definition round_outcome (room_roles : PyDict.t Role) (real_chor : string)
  (payload : GuessReq) : option (string * PyDict.t Z) :=
  let round_scores := base_scores room_roles in
  if decide (gr_targetId payload = real_chor) then
    Some (msg_correct, round_scores)
  else
    let stolen := BASE_POINTS Mantri in
    match PyDict.get real_chor round_scores with
    | None => None
    | Some pts =>
        let round_scores1 := PyDict.set real_chor (pts + stolen) round_scores in
        Some (msg_incorrect, PyDict.set (gr_mantriId payload) 0 round_scores1)
    end.

(** [mantri_guess]: five validations in the order of the source, then the
    scoring, the three writes to the room, and the accumulation loop. *)
Definition mantri_guess (roomId : string) (payload : GuessReq) (s : State)
  : Result GuessResp * State :=
  match rooms s !! roomId with
  | None => (HTTPException 404 "Room not found", s)
  | Some room =>
      match Room.roles room with
      | None | Some [] => (HTTPException 400 "Roles not assigned yet", s)
      | Some room_roles =>
          if decide (gr_mantriId payload ∉ Room.players room
                     ∨ gr_targetId payload ∉ Room.players room) then
            (HTTPException 404 "Invalid player id(s)", s)
          else if decide (Room.mantriId room ≠ Some (gr_mantriId payload)) then
            (HTTPException 403 "Only the Mantri can submit a guess", s)
          else if decide (Room.status room = "finished") then
            (HTTPException 400 "Round already finished", s)
          else
            match holder Chor room_roles with
            | None => (Uncaught StopIteration, s)
            | Some real_chor =>
                match round_outcome room_roles real_chor payload with
                | None => (Uncaught KeyError, s)
                | Some (msg, round_scores) =>
                    let g := Guess.mk (gr_mantriId payload) (gr_targetId payload) in
                    let room1 :=
                      Room.set_status "finished"
                        (Room.set_scores round_scores (Room.set_guess g room)) in
                    let '(exn, players', lb') :=
                      commit_scores round_scores (players s) (Room.leaderboard room1) in
                    let s' := {| rooms := <[roomId := Room.set_leaderboard lb' room1]> (rooms s);
                                 players := players' |} in
                    match exn with
                    | Some e => (Uncaught e, s')
                    | None =>
                        (Return {| gs_roomId := roomId; gs_message := msg;
                                   gs_roundScores := round_scores |}, s')
                    end
                end
            end
      end
  end.

(** [get_result] *)
Definition get_result (roomId : string) (s : State)
  : Result ResultResp * State :=
  match rooms s !! roomId with
  | None => (HTTPException 404 "Room not found", s)
  | Some room =>
      if decide (Room.status room ≠ "finished") then
        (HTTPException 400 "Round not finished yet", s)
      else
        (Return {| rr_roomId := roomId;
                   rr_roles := default PyDict.empty (Room.roles room);
                   rr_guess := Room.guess room;
                   rr_roundScores := Room.scores room;
                   rr_leaderboard := default PyDict.empty (Room.leaderboard room) |},
         s)
  end.

(** ** The server as a transition system *)

(** One request, with the outcomes of [new_id()] and [random.shuffle] that
    its handler consumes. *)
Inductive Request :=
| Home
| CreateRoom (room_id player_id : string) (req : CreateRoomReq)
| JoinRoom (player_id : string) (req : JoinRoomReq)
| GetPlayers (roomId : string)
| AssignRoles (roomId : string) (shuffled : list Role)
| GetMyRole (roomId playerId : string)
| MantriGuess (roomId : string) (payload : GuessReq)
| GetResult (roomId : string).

(** The store after the handler of [q] has run on [s]. *)
Definition handle (q : Request) (s : State) : State :=
  match q with
  | Home => (home s).2
  | CreateRoom room_id player_id req => (create_room room_id player_id req s).2
  | JoinRoom player_id req => (join_room player_id req s).2
  | GetPlayers roomId => (get_players roomId s).2
  | AssignRoles roomId shuffled => (assign_roles roomId shuffled s).2
  | GetMyRole roomId playerId => (get_my_role roomId playerId s).2
  | MantriGuess roomId payload => (mantri_guess roomId payload s).2
  | GetResult roomId => (get_result roomId s).2
  end.

(** What the two external sources guarantee: [new_id()] (a UUID) returns an
    identifier not in use, and [random.shuffle] permutes its argument. *)
Definition admissible (q : Request) (s : State) : Prop :=
  match q with
  | CreateRoom room_id player_id _ =>
      rooms s !! room_id = None ∧ players s !! player_id = None
  | JoinRoom player_id _ => players s !! player_id = None
  | AssignRoles _ shuffled => shuffled ≡ₚ roles
  | _ => True
  end.

(** The stores the server can be in: [initial], then any sequence of
    requests. *)
Inductive reachable : State → Prop :=
| reachable_initial : reachable initial
| reachable_handle q s : reachable s → admissible q s → reachable (handle q s).

(** [run qs s]: the requests [qs] handled in order, starting from [s]. *)
Definition run (qs : list Request) (s : State) : State :=
  foldl (λ s q, handle q s) s qs.

(** Every request of [qs] is admissible in the store it is handled in. *)
Fixpoint admissible_all (qs : list Request) (s : State) : Prop :=
  match qs with
  | [] => True
  | q :: qs' => admissible q s ∧ admissible_all qs' (handle q s)
  end.

(** [rooms[rid]["status"]], if the room exists. *)
Definition status_of (rid : string) (s : State) : option string :=
  Room.status <$> rooms s !! rid.

(** ** Invariants of the store *)

(** The role map [m] of room [r] is what [assign_roles] builds from a
    four-player roster: its keys are the roster in join order, its values
    are the four roles in some order, and the recorded Mantri is the holder
    that [next(...)] finds. *)
Definition roles_ok (r : Room.t) (m : PyDict.t Role) : Prop :=
  m.*1 = Room.players r
  ∧ m.*2 ≡ₚ roles
  ∧ ∃ mid, Room.mantriId r = Some mid ∧ holder Mantri m = Some mid.

(** What holds of the room stored under [rid], given the player table. *)
Record room_inv (tbl : gmap string Player.t) (rid : string) (r : Room.t)
  : Prop := {
  ri_nodup : NoDup (Room.players r);
  ri_len : (1 ≤ length (Room.players r) ≤ 4)%nat;
  ri_members : ∀ pid, pid ∈ Room.players r →
    ∃ p, tbl !! pid = Some p ∧ Player.roomId p = rid;
  ri_status : Room.status r = "waiting" ∨ Room.status r = "finished";
  ri_roles : ∀ m, Room.roles r = Some m → roles_ok r m;
  ri_waiting : Room.status r = "waiting" →
    Room.guess r = None ∧ Room.scores r = None ∧ Room.leaderboard r = None;
  ri_finished : Room.status r = "finished" →
    is_Some (Room.roles r) ∧ is_Some (Room.guess r)
    ∧ ∃ sc, Room.scores r = Some sc ∧ Room.leaderboard r = Some sc
            ∧ sc.*1 = Room.players r
}.

Definition inv (s : State) : Prop :=
  ∀ rid r, rooms s !! rid = Some r → room_inv (players s) rid r.

(** The part of the store that a finished round of room [rid] has fixed:
    the room's guess, round scores and leaderboard, and the cumulative total
    of each player of its roster. *)
Definition round_record (rid : string) (s : State)
  : option (option Guess.t * option (PyDict.t Z) * option (PyDict.t Z)
            * list (option Z)) :=
  r ← rooms s !! rid;
  Some (Room.guess r, Room.scores r, Room.leaderboard r,
        (λ pid, Player.totalScore <$> players s !! pid) <$> Room.players r).

(** Room [rid] exists and its round is over. *)
Definition finished_at (rid : string) (s : State) : Prop :=
  ∃ r, rooms s !! rid = Some r ∧ Room.status r = "finished".

(** The three refusals left to [mantri_guess] once a round is over, in the
    order in which the handler tests for them. *)
Definition late_guess_errors : list (Z * string) :=
  [(404, "Invalid player id(s)");
   (403, "Only the Mantri can submit a guess");
   (400, "Round already finished")].

(** The leaderboard that the loop leaves, as a function of the one it
    found. *)
Definition board_after (sc : PyDict.t Z) (lb : option (PyDict.t Z))
  : option (PyDict.t Z) :=
  foldl (λ lb '(pid, pts),
           let lb0 := default PyDict.empty lb in
           Some (PyDict.set pid (default 0 (PyDict.get pid lb0) + pts) lb0))
        lb sc.

(** The round score the specification gives to a holder of [role]: the base
    value when the guess is [correct]; otherwise the Chor has its base value
    plus the Mantri's, the Mantri has 0, the others their base value. *)
Definition expected_score (correct : bool) (role : Role) : Z :=
  if correct then BASE_POINTS role
  else match role with
       | Chor => BASE_POINTS Chor + BASE_POINTS Mantri
       | Mantri => 0
       | _ => BASE_POINTS role
       end.

(** The room as a successful [mantri_guess] stores it. *)
Definition finished_room (payload : GuessReq) (sc : PyDict.t Z) (lb : option (PyDict.t Z))
  (r : Room.t) : Room.t :=
  Room.set_leaderboard lb
    (Room.set_status "finished"
       (Room.set_scores sc
          (Room.set_guess (Guess.mk (gr_mantriId payload) (gr_targetId payload)) r))).

(** The sum of the values of a score map. *)
Definition total (d : PyDict.t Z) : Z := foldr Z.add 0 d.*2.

(** ** The scenario of the specification *)

(** A room is created, and three more players join it. *)
Definition created : State :=
  handle (CreateRoom "r" "p1" {| cr_name := "Asha" |}) initial.

Definition four_players : State :=
  run [CreateRoom "r" "p1" {| cr_name := "Asha" |};
       JoinRoom "p2" {| jr_roomId := "r"; jr_name := "Bela" |};
       JoinRoom "p3" {| jr_roomId := "r"; jr_name := "Chit" |};
       JoinRoom "p4" {| jr_roomId := "r"; jr_name := "Dev" |}] initial.

(** The shuffle leaves the roles as they were:
    {p1: Raja, p2: Mantri, p3: Chor, p4: Sipahi}. *)
Definition assigned : State := handle (AssignRoles "r" roles) four_players.

(** Two other outcomes of the shuffle. *)
Definition shuffle_a : list Role := [Chor; Raja; Sipahi; Mantri].

Definition shuffle_b : list Role := [Mantri; Raja; Chor; Sipahi].

(** The Mantri [p2] names the Chor [p3], or the Raja [p1]; a guess names an
    unknown target; the Raja sends a guess. *)
Definition guess_right : GuessReq :=
  {| gr_roomId := "r"; gr_mantriId := "p2"; gr_targetId := "p3" |}.

Definition guess_wrong : GuessReq :=
  {| gr_roomId := "r"; gr_mantriId := "p2"; gr_targetId := "p1" |}.

Definition guess_unknown_target : GuessReq :=
  {| gr_roomId := "r"; gr_mantriId := "p2"; gr_targetId := "p9" |}.

Definition guess_by_raja : GuessReq :=
  {| gr_roomId := "r"; gr_mantriId := "p1"; gr_targetId := "p3" |}.

(** The round after the Mantri has named [p3]. *)
Definition finished : State := handle (MantriGuess "r" guess_right) assigned.

(** The room ["r"] in [created], [four_players], [assigned] and [finished],
    and the round scores of the two guesses. *)
Definition created_room : Room.t :=
  Room.mk ["p1"] "waiting" None None None None None.

Definition four_room : Room.t :=
  Room.mk ["p1"; "p2"; "p3"; "p4"] "waiting" None None None None None.

Definition assigned_roles : PyDict.t Role :=
  [("p1", Raja); ("p2", Mantri); ("p3", Chor); ("p4", Sipahi)].

Definition assigned_room : Room.t :=
  Room.mk ["p1"; "p2"; "p3"; "p4"] "waiting" (Some assigned_roles) (Some "p2")
    None None None.

Definition right_scores : PyDict.t Z :=
  [("p1", 1000); ("p2", 800); ("p3", 0); ("p4", 500)].

Definition wrong_scores : PyDict.t Z :=
  [("p1", 1000); ("p2", 0); ("p3", 800); ("p4", 500)].

Definition right_resp : GuessResp :=
  {| gs_roomId := "r"; gs_message := msg_correct; gs_roundScores := right_scores |}.

Definition wrong_resp : GuessResp :=
  {| gs_roomId := "r"; gs_message := msg_incorrect;
     gs_roundScores := wrong_scores |}.

Definition over_room : Room.t :=
  Room.mk ["p1"; "p2"; "p3"; "p4"] "finished" (Some assigned_roles) (Some "p2")
    (Some (Guess.mk "p2" "p3")) (Some right_scores) (Some right_scores).

(** What the server handles after the round is over: another room is
    created, and the roles of the finished room are shuffled again. *)
Definition afterwards : list Request :=
  [CreateRoom "q" "p5" {| cr_name := "Esha" |}; AssignRoles "r" shuffle_b].

(** The room ["r"] after [afterwards]: [shuffle_b] has made [p1] the Mantri. *)
Definition reshuffled_room : Room.t :=
  Room.mk ["p1"; "p2"; "p3"; "p4"] "finished"
    (Some [("p1", Mantri); ("p2", Raja); ("p3", Chor); ("p4", Sipahi)])
    (Some "p1") (Some (Guess.mk "p2" "p3")) (Some right_scores)
    (Some right_scores).

(** A store in which a player already has points, and the room a leaderboard
    entry, when the guess is made: [p3] has 70 in both. *)
Definition history_room : Room.t :=
  Room.mk ["p1"; "p2"; "p3"; "p4"] "waiting" (Some assigned_roles) (Some "p2")
    None None (Some [("p3", 70)]).

Definition with_history : State :=
  {| rooms := <["r" := history_room]> (rooms assigned);
     players := <["p3" := Player.mk "Chit" "r" 70]> (players assigned) |}.

(** ** Outcomes of a request *)

(** The [HTTPException] that ends a handler, if one does. *)
Definition failure {A} (out : Result A * State) : option (Z * string) :=
  match out.1 with
  | HTTPException status_code detail => Some (status_code, detail)
  | _ => None
  end.

(** The Python exception that escapes from a handler, if one does. *)
Definition escaped {A} (out : Result A * State) : option PyExn :=
  match out.1 with
  | Uncaught e => Some e
  | _ => None
  end.

Definition refused (q : Request) (s : State) : option (Z * string) :=
  match q with
  | Home => failure (home s)
  | CreateRoom room_id player_id req => failure (create_room room_id player_id req s)
  | JoinRoom player_id req => failure (join_room player_id req s)
  | GetPlayers roomId => failure (get_players roomId s)
  | AssignRoles roomId shuffled => failure (assign_roles roomId shuffled s)
  | GetMyRole roomId playerId => failure (get_my_role roomId playerId s)
  | MantriGuess roomId payload => failure (mantri_guess roomId payload s)
  | GetResult roomId => failure (get_result roomId s)
  end.

Definition raised (q : Request) (s : State) : option PyExn :=
  match q with
  | Home => escaped (home s)
  | CreateRoom room_id player_id req => escaped (create_room room_id player_id req s)
  | JoinRoom player_id req => escaped (join_room player_id req s)
  | GetPlayers roomId => escaped (get_players roomId s)
  | AssignRoles roomId shuffled => escaped (assign_roles roomId shuffled s)
  | GetMyRole roomId playerId => escaped (get_my_role roomId playerId s)
  | MantriGuess roomId payload => escaped (mantri_guess roomId payload s)
  | GetResult roomId => escaped (get_result roomId s)
  end.

(** The GET handlers. *)
Definition is_read (q : Request) : bool :=
  match q with
  | Home | GetPlayers _ | GetMyRole _ _ | GetResult _ => true
  | _ => false
  end.

(** The room that a request names (for [create_room], the one it creates). *)
Definition target (q : Request) : option string :=
  match q with
  | Home => None
  | CreateRoom room_id _ _ => Some room_id
  | JoinRoom _ req => Some (jr_roomId req)
  | GetPlayers roomId | AssignRoles roomId _ | GetMyRole roomId _
  | MantriGuess roomId _ | GetResult roomId => Some roomId
  end.

(** [rooms[rid]["scores"].get(pid, 0)], 0 also while there are no scores. *)
Definition round_score (r : Room.t) (pid : string) : Z :=
  default 0 (sc ← Room.scores r; PyDict.get pid sc).

(** What holds of every entry of the player table: its [roomId] names a room
    that lists the player, and its total is the player's score in the round
    of that room, 0 as long as the round is open. *)
Definition player_inv (s : State) : Prop :=
  ∀ pid p, players s !! pid = Some p →
    ∃ r, rooms s !! Player.roomId p = Some r
         ∧ pid ∈ Room.players r
         ∧ Player.totalScore p = round_score r pid.

(** A second room, created after the round of the first is over. *)
Definition two_rooms : State :=
  handle (CreateRoom "q" "p5" {| cr_name := "Esha" |}) finished.

Definition second_room : Room.t :=
  Room.mk ["p5"] "waiting" None None None None None.

(** Every stored round score map adds up to the 2300 points of the four
    roles. *)
Definition scores_inv (s : State) : Prop :=
  ∀ rid r sc, rooms s !! rid = Some r → Room.scores r = Some sc →
    total sc = 2300.

(** The cumulative totals of the players of a roster, added up (a missing
    player counts 0). *)
Definition roster_total (s : State) (r : Room.t) : Z :=
  foldr Z.add 0
    ((λ pid, default 0 (Player.totalScore <$> players s !! pid))
       <$> Room.players r).

(** * Properties *)

(** ** Dictionaries *)

Module PyDictFacts.

Section Facts.
Context {V : Type}.
Implicit Types (d : PyDict.t V) (k : string) (v : V).

Lemma get_None k d : PyDict.get k d = None ↔ k ∉ d.*1.
Proof.
  induction d as [|[k' v'] d IH]; simpl.
  - split; [intros _; apply not_elem_of_nil | done].
  - case_decide as Hk; subst.
    + split; [done | intros []; left].
    + rewrite IH, not_elem_of_cons. tauto.
Qed.

Lemma get_is_Some k d : is_Some (PyDict.get k d) ↔ k ∈ d.*1.
Proof.
  rewrite <-not_eq_None_Some, get_None.
  destruct (decide (k ∈ d.*1)); naive_solver.
Qed.

Lemma get_elem_of k v d : PyDict.get k d = Some v → (k, v) ∈ d.
Proof.
  induction d as [|[k' v'] d IH]; simpl; [done|].
  case_decide; intros; simplify_eq; [left | right; auto].
Qed.

Lemma elem_of_get k v d : NoDup d.*1 → (k, v) ∈ d → PyDict.get k d = Some v.
Proof.
  induction d as [|[k' v'] d IH]; simpl; intros Hnd Hin.
  - by apply elem_of_nil in Hin.
  - apply NoDup_cons in Hnd as [Hk' Hnd].
    apply elem_of_cons in Hin as [Heq|Hin]; simplify_eq.
    + by rewrite decide_True.
    + rewrite decide_False; [auto|].
      intros ->. apply Hk'. apply list_elem_of_fmap. by exists (k', v).
Qed.

Lemma get_set_eq k v d : PyDict.get k (PyDict.set k v d) = Some v.
Proof.
  induction d as [|[k' v'] d IH]; simpl.
  - by rewrite decide_True.
  - case_decide; simpl; subst.
    + by rewrite decide_True.
    + by rewrite decide_False.
Qed.

Lemma get_set_ne k k' v d :
  k ≠ k' → PyDict.get k' (PyDict.set k v d) = PyDict.get k' d.
Proof.
  intros Hne. induction d as [|[k0 v0] d IH]; simpl.
  - by rewrite decide_False.
  - case_decide; simpl; subst.
    + by rewrite !decide_False.
    + by rewrite IH.
Qed.

(** Assigning to a key that is present keeps the order of the keys. *)
Lemma keys_set_elem k v d : k ∈ d.*1 → (PyDict.set k v d).*1 = d.*1.
Proof.
  induction d as [|[k' v'] d IH]; simpl; intros Hin.
  - by apply elem_of_nil in Hin.
  - case_decide; simpl; [done|].
    f_equal. apply IH. apply elem_of_cons in Hin as [|]; done.
Qed.

(** Assigning to a new key appends it. *)
Lemma set_not_elem k v d : k ∉ d.*1 → PyDict.set k v d = d ++ [(k, v)].
Proof.
  induction d as [|[k' v'] d IH]; simpl; intros Hin; [done|].
  apply not_elem_of_cons in Hin as [? ?].
  rewrite decide_False by done. by rewrite IH.
Qed.

Lemma set_nonempty k v d : PyDict.set k v d ≠ [].
Proof. destruct d as [|[k' v'] d]; simpl; [done|]. by case_decide. Qed.

(** Assignment never duplicates a key. *)
Lemma set_NoDup k v d : NoDup d.*1 → NoDup (PyDict.set k v d).*1.
Proof.
  intros Hnd. destruct (decide (k ∈ d.*1)) as [Hin|Hin].
  - by rewrite keys_set_elem.
  - rewrite set_not_elem, fmap_app by done. apply NoDup_app.
    split; [done|]. split; [|apply NoDup_singleton].
    intros x Hx ->%list_elem_of_singleton. done.
Qed.

End Facts.

End PyDictFacts.

(** ** Role assignment: the loop and the search for a holder *)

Section RoleAssignment.
Implicit Types (m acc : PyDict.t Role) (roster : list string) (sh : list Role).

(** On a roster without repetition the loop zips roster and shuffled roles. *)
Lemma zip_roles_zip roster : ∀ i sh acc,
  NoDup roster →
  (∀ pid, pid ∈ roster → pid ∉ acc.*1) →
  (i + length roster ≤ length sh)%nat →
  zip_roles i roster sh acc = Some (acc ++ zip roster (drop i sh)).
Proof.
  induction roster as [|pid rest IH]; intros i sh acc Hnd Hfresh Hlen; simpl in *.
  - by rewrite app_nil_r.
  - apply NoDup_cons in Hnd as [Hpid Hnd].
    destruct (lookup_lt_is_Some_2 sh i) as [r Hr]; [lia|].
    rewrite Hr, PyDictFacts.set_not_elem by (apply Hfresh; left).
    rewrite IH; [| done | | lia].
    + by rewrite (drop_S _ _ _ Hr), <-app_assoc.
    + intros k Hk. rewrite fmap_app, elem_of_app. simpl.
      rewrite list_elem_of_singleton. intros [Hin | ->]; [|done].
      by apply (Hfresh k); [right|].
Qed.

Lemma zip_roles_shuffled roster sh :
  NoDup roster → length roster = 4%nat → sh ≡ₚ roles →
  zip_roles 0 roster sh PyDict.empty = Some (zip roster sh).
Proof.
  intros Hnd Hlen Hsh. apply Permutation_length in Hsh. simpl in Hsh.
  rewrite zip_roles_zip; [done | done | | simpl; lia].
  intros ? _. apply not_elem_of_nil.
Qed.

Lemma zip_keys roster sh :
  length roster = 4%nat → sh ≡ₚ roles → (zip roster sh).*1 = roster.
Proof.
  intros Hlen Hsh. apply Permutation_length in Hsh. simpl in Hsh.
  apply fst_zip. lia.
Qed.

Lemma zip_values roster sh :
  length roster = 4%nat → sh ≡ₚ roles → (zip roster sh).*2 = sh.
Proof.
  intros Hlen Hsh. apply Permutation_length in Hsh. simpl in Hsh.
  apply snd_zip. lia.
Qed.

Lemma holder_elem_of r m pid : holder r m = Some pid → (pid, r) ∈ m.
Proof.
  induction m as [|[k r'] m IH]; simpl; [done|].
  case_decide; intros; simplify_eq; [left | right; auto].
Qed.

Lemma holder_is_Some r m : r ∈ m.*2 → is_Some (holder r m).
Proof.
  induction m as [|[k r'] m IH]; simpl; intros Hin.
  - by apply elem_of_nil in Hin.
  - case_decide; [by eexists|].
    apply elem_of_cons in Hin as [|]; [congruence | auto].
Qed.

Lemma holder_get r m pid :
  NoDup m.*1 → holder r m = Some pid → PyDict.get pid m = Some r.
Proof.
  intros Hnd Hh. apply PyDictFacts.elem_of_get; [done|].
  by apply holder_elem_of.
Qed.

(** When no role occurs twice, the holder of a role is the only player
    who has it. *)
Lemma holder_unique r m pid :
  NoDup m.*2 → (pid, r) ∈ m → holder r m = Some pid.
Proof.
  induction m as [|[k r'] m IH]; simpl; intros Hnd Hin.
  - by apply elem_of_nil in Hin.
  - apply NoDup_cons in Hnd as [Hr' Hnd].
    apply elem_of_cons in Hin as [Heq|Hin]; simplify_eq.
    + by rewrite decide_True.
    + rewrite decide_False; [auto|].
      intros ->. apply Hr'. apply list_elem_of_fmap. by exists (pid, r).
Qed.

Lemma roles_NoDup : NoDup roles.
Proof. apply (bool_decide_unpack _). by vm_compute. Qed.

Lemma elem_of_roles r : r ∈ roles.
Proof. destruct r; apply (bool_decide_unpack _); by vm_compute. Qed.

Lemma shuffled_NoDup sh : sh ≡ₚ roles → NoDup sh.
Proof. intros ->. apply roles_NoDup. Qed.

Lemma shuffled_elem_of sh r : sh ≡ₚ roles → r ∈ sh.
Proof. intros ->. apply elem_of_roles. Qed.

End RoleAssignment.

(** ** Scoring *)

Section Scoring.
Implicit Types (m : PyDict.t Role) (d sc : PyDict.t Z) (tbl : gmap string Player.t).

Lemma base_scores_keys m : (base_scores m).*1 = m.*1.
Proof. unfold base_scores. rewrite <-list_fmap_compose. by apply list_fmap_ext. Qed.

Lemma base_scores_values m : (base_scores m).*2 = BASE_POINTS <$> m.*2.
Proof. unfold base_scores. rewrite <-!list_fmap_compose. by apply list_fmap_ext. Qed.

Lemma base_scores_get pid m :
  PyDict.get pid (base_scores m) = BASE_POINTS <$> PyDict.get pid m.
Proof.
  induction m as [|[k r] m IH]; simpl; [done|].
  case_decide; [done | apply IH].
Qed.

Lemma sum_permutation (l1 l2 : list Z) :
  l1 ≡ₚ l2 → foldr Z.add 0 l1 = foldr Z.add 0 l2.
Proof. induction 1; simpl; lia. Qed.

(** The four base values add up to 2300 whatever the permutation. *)
Lemma total_base_scores m : m.*2 ≡ₚ roles → total (base_scores m) = 2300.
Proof.
  intros Hm. unfold total. rewrite base_scores_values.
  by rewrite (sum_permutation _ (BASE_POINTS <$> roles)) by (by rewrite Hm).
Qed.

(** Overwriting one entry changes the sum by the difference. *)
Lemma total_set k v old d :
  PyDict.get k d = Some old → total (PyDict.set k v d) = total d - old + v.
Proof.
  unfold total. induction d as [|[k' v'] d IH]; csimpl; [done|].
  case_decide; intros; simplify_eq; csimpl; [lia|].
  rewrite IH by done. lia.
Qed.

(** The accumulation loop on a score map whose keys are distinct and all
    known to the player table: it completes, every listed player's total
    grows by the listed points, and nobody else's entry changes. *)
Lemma commit_scores_players sc : ∀ tbl lb,
  NoDup sc.*1 →
  (∀ pid, pid ∈ sc.*1 → is_Some (tbl !! pid)) →
  ∃ tbl' lb',
    commit_scores sc tbl lb = (None, tbl', lb')
    ∧ ∀ pid, tbl' !! pid =
        match PyDict.get pid sc with
        | Some pts =>
            (λ p, Player.set_totalScore (Player.totalScore p + pts) p) <$> tbl !! pid
        | None => tbl !! pid
        end.
Proof.
  induction sc as [|[k pts] sc IH]; intros tbl lb Hnd Hdom; simpl in *.
  - by eexists _, _.
  - apply NoDup_cons in Hnd as [Hk Hnd].
    destruct (Hdom k) as [p Hp]; [left|]. rewrite Hp.
    edestruct (IH (<[k:=Player.set_totalScore (Player.totalScore p + pts) p]> tbl))
      as (tbl' & lb' & -> & Htbl'); [done | |].
    { intros pid Hpid. rewrite lookup_insert. case_decide; [by eexists|].
      apply Hdom. by right. }
    eexists _, _. split; [done|]. intros pid. rewrite Htbl'.
    case_decide as Hpid; subst.
    + apply PyDictFacts.get_None in Hk. by rewrite Hk, lookup_insert_eq, Hp.
    + by rewrite lookup_insert_ne.
Qed.

Lemma commit_scores_board sc : ∀ tbl lb tbl' lb',
  commit_scores sc tbl lb = (None, tbl', lb') → lb' = board_after sc lb.
Proof.
  induction sc as [|[k pts] sc IH]; intros tbl lb tbl' lb'; simpl.
  - by intros [= _ <-].
  - destruct (tbl !! k); [|done]. apply IH.
Qed.

(** Every listed player's leaderboard entry grows by the listed points
    (from 0 if there was none); other entries stay. *)
Lemma board_after_get sc : ∀ lb pid,
  NoDup sc.*1 →
  sc ≠ [] →
  ∃ lb', board_after sc lb = Some lb'
    ∧ PyDict.get pid lb' =
        match PyDict.get pid sc with
        | Some pts => Some (default 0 (PyDict.get pid (default PyDict.empty lb)) + pts)
        | None => PyDict.get pid (default PyDict.empty lb)
        end.
Proof.
  induction sc as [|[k pts] sc IH]; intros lb pid Hnd Hne; [done|].
  rewrite fmap_cons in Hnd. apply NoDup_cons in Hnd as [Hk Hnd]. simpl in *.
  set (lb0 := default PyDict.empty lb).
  set (lb1 := PyDict.set k (default 0 (PyDict.get k lb0) + pts) lb0).
  destruct sc as [|e sc].
  - exists lb1. split; [done|]. simpl. subst lb1. case_decide; subst.
    + by rewrite PyDictFacts.get_set_eq.
    + by rewrite PyDictFacts.get_set_ne.
  - destruct (IH (Some lb1) pid) as (lb' & Hlb' & Hget); [done..|].
    exists lb'. split; [done|]. rewrite Hget. simpl default. subst lb1.
    case_decide as Hpid; subst.
    + apply PyDictFacts.get_None in Hk. rewrite Hk.
      by rewrite PyDictFacts.get_set_eq.
    + rewrite PyDictFacts.get_set_ne by done. done.
Qed.

(** Started without a leaderboard, the loop leaves a copy of the score map. *)
Lemma board_after_app sc : ∀ (acc : PyDict.t Z),
  NoDup sc.*1 →
  (∀ pid, pid ∈ sc.*1 → pid ∉ acc.*1) →
  sc ≠ [] →
  board_after sc (Some acc) = Some (acc ++ sc).
Proof.
  induction sc as [|[k pts] sc IH]; intros acc Hnd Hfresh Hne; [done|].
  rewrite fmap_cons in Hnd. apply NoDup_cons in Hnd as [Hk Hnd]. simpl in *.
  assert (Hkacc : k ∉ acc.*1) by (apply Hfresh; left).
  rewrite PyDictFacts.set_not_elem by done.
  apply PyDictFacts.get_None in Hkacc. rewrite Hkacc. simpl.
  destruct sc as [|e sc]; [done|].
  rewrite IH; [by rewrite <-app_assoc | done | | done].
  intros pid Hpid. rewrite fmap_app, elem_of_app. simpl.
  rewrite list_elem_of_singleton. intros [Hin | ->]; [|done].
  by apply (Hfresh pid); [right|].
Qed.

Lemma board_after_None sc :
  NoDup sc.*1 → sc ≠ [] → board_after sc None = Some sc.
Proof.
  intros Hnd Hne. destruct sc as [|[k pts] sc]; [done|].
  rewrite fmap_cons in Hnd. apply NoDup_cons in Hnd as [Hk Hnd]. simpl in *.
  destruct sc as [|e sc]; [done|].
  rewrite board_after_app; [done | done | | done].
  intros pid Hpid. simpl. rewrite list_elem_of_singleton. by intros ->.
Qed.

(** The score map of a round on a well-formed role map. *)
Lemma round_outcome_scores m chor payload :
  NoDup m.*1 → m.*2 ≡ₚ roles →
  holder Chor m = Some chor →
  holder Mantri m = Some (gr_mantriId payload) →
  let correct := bool_decide (gr_targetId payload = chor) in
  ∃ sc,
    round_outcome m chor payload
    = Some (if correct then msg_correct else msg_incorrect, sc)
    ∧ sc.*1 = m.*1
    ∧ total sc = 2300
    ∧ ∀ pid role, PyDict.get pid m = Some role →
        PyDict.get pid sc = Some (expected_score correct role).
Proof.
  intros Hnd Hperm Hchor Hmantri correct. subst correct.
  pose proof (holder_get _ _ _ Hnd Hchor) as Hgc.
  pose proof (holder_get _ _ _ Hnd Hmantri) as Hgm.
  assert (Hvals : NoDup m.*2) by by apply shuffled_NoDup.
  unfold round_outcome. case_decide as Htgt.
  - rewrite bool_decide_eq_true_2 by done.
    eexists. split; [done|]. split; [apply base_scores_keys|].
    split; [by apply total_base_scores|].
    intros pid role Hrole. by rewrite base_scores_get, Hrole.
  - rewrite bool_decide_eq_false_2 by done.
    rewrite base_scores_get, Hgc. simpl.
    assert (Hne : chor ≠ gr_mantriId payload) by (intros ->; congruence).
    assert (Hmid : gr_mantriId payload
                   ∈ (PyDict.set chor 800 (base_scores m)).*1).
    { apply PyDictFacts.get_is_Some.
      rewrite PyDictFacts.get_set_ne, base_scores_get, Hgm by done. by eexists. }
    eexists. split; [done|]. split; [|split].
    + rewrite PyDictFacts.keys_set_elem by done.
      rewrite PyDictFacts.keys_set_elem; [apply base_scores_keys|].
      apply PyDictFacts.get_is_Some. rewrite base_scores_get, Hgc. by eexists.
    + rewrite (total_set _ _ 800).
      2:{ by rewrite PyDictFacts.get_set_ne, base_scores_get, Hgm. }
      rewrite (total_set _ _ 0).
      2:{ by rewrite base_scores_get, Hgc. }
      rewrite total_base_scores by done. lia.
    + intros pid role Hrole.
      destruct (decide (pid = gr_mantriId payload)) as [->|Hpm].
      { rewrite PyDictFacts.get_set_eq. by simplify_eq. }
      rewrite PyDictFacts.get_set_ne by done.
      destruct (decide (pid = chor)) as [->|Hpc].
      { rewrite PyDictFacts.get_set_eq. by simplify_eq. }
      rewrite PyDictFacts.get_set_ne, base_scores_get, Hrole by done.
      apply PyDictFacts.get_elem_of in Hrole.
      destruct role; simpl; try done.
      * apply (holder_unique _ _ _ Hvals) in Hrole. congruence.
      * apply (holder_unique _ _ _ Hvals) in Hrole. congruence.
Qed.

(** The score map has distinct keys whenever the role map has. *)
Lemma round_outcome_NoDup m chor payload msg sc :
  NoDup m.*1 → round_outcome m chor payload = Some (msg, sc) → NoDup sc.*1.
Proof.
  intros Hnd. unfold round_outcome. case_decide.
  - intros [= <- <-]. by rewrite base_scores_keys.
  - destruct (PyDict.get chor (base_scores m)); [|done]. intros [= <- <-].
    apply PyDictFacts.set_NoDup, PyDictFacts.set_NoDup.
    by rewrite base_scores_keys.
Qed.

(** A role map with an entry gives a score map with an entry. *)
Lemma round_outcome_nonempty m chor payload msg sc :
  m ≠ [] → round_outcome m chor payload = Some (msg, sc) → sc ≠ [].
Proof.
  intros Hm. unfold round_outcome. case_decide.
  - intros [= <- <-]. by destruct m.
  - destruct (PyDict.get chor (base_scores m)); [|done]. intros [= <- <-].
    apply PyDictFacts.set_nonempty.
Qed.

(** If the loop completes, every listed player was in the table. *)
Lemma commit_scores_completes sc : ∀ tbl lb tbl' lb',
  commit_scores sc tbl lb = (None, tbl', lb') →
  ∀ pid, pid ∈ sc.*1 → is_Some (tbl !! pid).
Proof.
  induction sc as [|[k pts] sc IH]; intros tbl lb tbl' lb' Hc pid Hpid;
    simpl in *.
  - by apply elem_of_nil in Hpid.
  - destruct (tbl !! k) as [p|] eqn:Hk; [|done].
    apply elem_of_cons in Hpid as [->|Hpid]; [by eexists|].
    specialize (IH _ _ _ _ Hc pid Hpid). rewrite lookup_insert in IH.
    by case_decide; simplify_eq.
Qed.

End Scoring.

(** ** What the handlers do on a well-formed store *)

Section Handlers.
Implicit Types (s : State) (r : Room.t) (m : PyDict.t Role).

Lemma roles_ok_length r m : roles_ok r m → length (Room.players r) = 4%nat.
Proof.
  intros (Hkeys & Hvals & _). rewrite <-Hkeys, length_fmap.
  apply Permutation_length in Hvals. by rewrite length_fmap in Hvals.
Qed.

Lemma room_inv_roles_NoDup tbl rid r m :
  room_inv tbl rid r → Room.roles r = Some m → NoDup m.*1.
Proof.
  intros Hr Hm. destruct (ri_roles _ _ _ Hr m Hm) as (-> & _).
  by eapply ri_nodup.
Qed.

(** The room invariant looks at the player table only through the presence
    and the [roomId] of each roster member. *)
Lemma room_inv_tbl tbl tbl' rid r :
  (∀ pid p, tbl !! pid = Some p →
     ∃ p', tbl' !! pid = Some p' ∧ Player.roomId p' = Player.roomId p) →
  room_inv tbl rid r → room_inv tbl' rid r.
Proof.
  intros Htbl [].
  split; try done.
  intros pid Hpid. destruct (ri_members0 pid Hpid) as (p & Hp & Hrid).
  destruct (Htbl pid p Hp) as (p' & Hp' & Heq). exists p'. by rewrite Heq.
Qed.

(** With an admissible shuffle, [assign_roles] either refuses and leaves
    the store alone, or stores the zip of roster and shuffle together with
    its Mantri; no exception escapes. *)
Lemma assign_roles_cases rid sh s :
  inv s → sh ≡ₚ roles →
  (rooms s !! rid = None
   ∧ assign_roles rid sh s = (HTTPException 404 "Room not found", s))
  ∨ (∃ r, rooms s !! rid = Some r ∧ length (Room.players r) ≠ 4%nat
          ∧ assign_roles rid sh s
            = (HTTPException 400 "Need exactly 4 players to assign roles", s))
  ∨ (∃ r mid resp,
       rooms s !! rid = Some r
       ∧ length (Room.players r) = 4%nat
       ∧ holder Mantri (zip (Room.players r) sh) = Some mid
       ∧ assign_roles rid sh s
         = (Return resp,
            set_room rid
              (Room.set_mantriId mid (Room.set_roles (zip (Room.players r) sh) r)) s)).
Proof.
  intros Hinv Hsh. unfold assign_roles.
  destruct (rooms s !! rid) as [r|] eqn:Hr; [|by left].
  case_decide as Hlen; [right; left; by exists r|].
  rewrite zip_roles_shuffled by (by eauto using ri_nodup).
  destruct (holder_is_Some Mantri (zip (Room.players r) sh)) as [mid Hmid].
  { rewrite zip_values by done. by apply shuffled_elem_of. }
  rewrite Hmid. right; right. by eexists _, _, _.
Qed.

(** [mantri_guess] on a well-formed store either refuses and leaves the
    store alone, or scores a room that was still waiting; no exception
    escapes. *)
Lemma mantri_guess_cases rid payload s :
  inv s →
  (∃ code detail, mantri_guess rid payload s = (HTTPException code detail, s))
  ∨ (∃ r m chor sc tbl',
       rooms s !! rid = Some r
       ∧ Room.roles r = Some m
       ∧ Room.status r = "waiting"
       ∧ gr_mantriId payload ∈ Room.players r
       ∧ gr_targetId payload ∈ Room.players r
       ∧ Room.mantriId r = Some (gr_mantriId payload)
       ∧ holder Chor m = Some chor
       ∧ round_outcome m chor payload
         = Some (if bool_decide (gr_targetId payload = chor)
                 then msg_correct else msg_incorrect, sc)
       ∧ sc.*1 = Room.players r
       ∧ commit_scores sc (players s) None = (None, tbl', Some sc)
       ∧ (∀ pid, tbl' !! pid =
            match PyDict.get pid sc with
            | Some pts =>
                (λ p, Player.set_totalScore (Player.totalScore p + pts) p)
                  <$> players s !! pid
            | None => players s !! pid
            end)
       ∧ mantri_guess rid payload s
         = (Return {| gs_roomId := rid;
                      gs_message := if bool_decide (gr_targetId payload = chor)
                                    then msg_correct else msg_incorrect;
                      gs_roundScores := sc |},
            {| rooms := <[rid := finished_room payload sc (Some sc) r]> (rooms s);
               players := tbl' |})).
Proof.
  intros Hinv. unfold mantri_guess.
  destruct (rooms s !! rid) as [r|] eqn:Hr; [|left; by eexists _, _].
  pose proof (Hinv rid r Hr) as Hrinv.
  destruct (Room.roles r) as [m|] eqn:Hm; [|left; by eexists _, _].
  destruct (ri_roles _ _ _ Hrinv m Hm) as (Hkeys & Hvals & mid & Hmid & Hholder).
  pose proof (room_inv_roles_NoDup _ _ _ _ Hrinv Hm) as Hnd.
  destruct m as [|e m0] eqn:Hm0; [left; by eexists _, _|]. rewrite <-Hm0 in *.
  clear Hm0.
  case_decide as Hmem; [left; by eexists _, _|].
  assert (Hin1 : gr_mantriId payload ∈ Room.players r).
  { apply dec_stable. intros ?. apply Hmem. by left. }
  assert (Hin2 : gr_targetId payload ∈ Room.players r).
  { apply dec_stable. intros ?. apply Hmem. by right. }
  case_decide as Hacc; [left; by eexists _, _|].
  case_decide as Hst; [left; by eexists _, _|].
  destruct (ri_status _ _ _ Hrinv) as [Hw|?]; [|done].
  destruct (ri_waiting _ _ _ Hrinv Hw) as (_ & _ & Hlb).
  destruct (holder_is_Some Chor m) as [chor Hchor].
  { by apply shuffled_elem_of. }
  rewrite Hchor. assert (mid = gr_mantriId payload) as -> by congruence.
  destruct (round_outcome_scores m chor payload Hnd Hvals Hchor Hholder)
    as (sc & Hout & Hsckeys & _ & _).
  rewrite Hout.
  destruct (commit_scores_players sc (players s) None)
    as (tbl' & lb' & Hcommit & Htbl').
  { by rewrite Hsckeys. }
  { intros pid Hpid. rewrite Hsckeys, Hkeys in Hpid.
    destruct (ri_members _ _ _ Hrinv pid Hpid) as (p & -> & _). by eexists. }
  assert (lb' = Some sc) as ->.
  { rewrite (commit_scores_board _ _ _ _ _ Hcommit).
    apply board_after_None; [by rewrite Hsckeys|].
    intros ->. by rewrite Hkeys in Hsckeys; rewrite <-Hsckeys in Hin1;
      apply elem_of_nil in Hin1. }
  simpl. rewrite Hlb, Hcommit.
  right. eexists r, m, chor, sc, tbl'. repeat (split; [done || congruence|]). done.
Qed.

(** What a normal return of [mantri_guess] tells, on any store. *)
Lemma mantri_guess_Return_inv rid payload s resp s' :
  mantri_guess rid payload s = (Return resp, s') →
  ∃ r m chor msg sc tbl' lb',
    rooms s !! rid = Some r ∧ Room.roles r = Some m ∧ m ≠ []
    ∧ Room.status r ≠ "finished"
    ∧ holder Chor m = Some chor
    ∧ round_outcome m chor payload = Some (msg, sc)
    ∧ commit_scores sc (players s) (Room.leaderboard r) = (None, tbl', lb')
    ∧ resp = {| gs_roomId := rid; gs_message := msg; gs_roundScores := sc |}
    ∧ s' = {| rooms := <[rid := finished_room payload sc lb' r]> (rooms s);
              players := tbl' |}.
Proof.
  unfold mantri_guess.
  destruct (rooms s !! rid) as [r|]; [|done].
  destruct (Room.roles r) as [[|e m]|] eqn:Hm; [done| |done].
  repeat case_decide; try done.
  destruct (holder Chor (e :: m)) as [chor|] eqn:Hchor; [|done].
  destruct (round_outcome (e :: m) chor payload) as [[msg sc]|] eqn:Hout;
    [|done].
  simpl.
  destruct (commit_scores sc (players s) (Room.leaderboard r))
    as [[[exn|] tbl'] lb'] eqn:Hc; [done|].
  intros [= <- <-]. by eexists r, (e :: m), chor, msg, sc, tbl', lb'.
Qed.

(** The three read handlers return the store they were given. *)
Lemma get_players_store rid s : (get_players rid s).2 = s.
Proof. unfold get_players. by repeat case_match. Qed.

Lemma get_my_role_store rid pid s : (get_my_role rid pid s).2 = s.
Proof. unfold get_my_role. by repeat case_match. Qed.

Lemma get_result_store rid s : (get_result rid s).2 = s.
Proof. unfold get_result. by repeat case_match. Qed.

Lemma inv_initial : inv initial.
Proof. intros rid r Hr. simpl in Hr. by rewrite lookup_empty in Hr. Qed.

Lemma create_room_inv room_id player_id req s :
  inv s → rooms s !! room_id = None → players s !! player_id = None →
  inv (create_room room_id player_id req s).2.
Proof.
  intros Hinv Hrid Hpid rid r. simpl. rewrite lookup_insert.
  case_decide as Heq.
  - intros [= <-]. subst. split; simpl; try done.
    + apply NoDup_singleton.
    + lia.
    + intros pid ->%list_elem_of_singleton. eexists.
      by rewrite lookup_insert_eq.
    + by left.
  - intros Hr. eapply room_inv_tbl; [|by apply Hinv].
    intros pid p Hp. exists p. rewrite lookup_insert_ne; [done|].
    intros ->. congruence.
Qed.

Lemma join_room_inv player_id req s :
  inv s → players s !! player_id = None → inv (join_room player_id req s).2.
Proof.
  intros Hinv Hpid. unfold join_room.
  destruct (rooms s !! jr_roomId req) as [r0|] eqn:Hr0; [|done].
  case_decide as Hst; [done|]. case_decide as Hlen; [done|].
  pose proof (Hinv _ _ Hr0) as Hr0inv.
  intros rid r. simpl. rewrite lookup_insert. case_decide as Heq.
  - intros [= <-]. subst rid. destruct Hr0inv. split; simpl; try done.
    + apply NoDup_app. split; [done|]. split; [|apply NoDup_singleton].
      intros x Hx ->%list_elem_of_singleton.
      destruct (ri_members0 _ Hx) as (p & Hp & _). congruence.
    + rewrite length_app. simpl. lia.
    + intros pid [Hin| ->%list_elem_of_singleton]%elem_of_app.
      * destruct (ri_members0 pid Hin) as (p & Hp & Hroom). exists p.
        rewrite lookup_insert_ne; [done|]. intros ->; congruence.
      * eexists. by rewrite lookup_insert_eq.
    + intros m Hm. apply ri_roles0, roles_ok_length in Hm. lia.
    + intros Hf. congruence.
  - intros Hr. eapply room_inv_tbl; [|by apply Hinv].
    intros pid p Hp. exists p. rewrite lookup_insert_ne; [done|].
    intros ->. congruence.
Qed.

Lemma assign_roles_inv rid sh s :
  inv s → sh ≡ₚ roles → inv (assign_roles rid sh s).2.
Proof.
  intros Hinv Hsh.
  destruct (assign_roles_cases rid sh s Hinv Hsh)
    as [[_ ->]|[(r0 & _ & _ & ->)|(r0 & mid & resp & Hr0 & Hlen & Hmid & ->)]];
    [done..|].
  intros rid' r. unfold set_room. simpl. rewrite lookup_insert. case_decide as Heq.
  - intros [= <-]. subst rid'. destruct (Hinv _ _ Hr0).
    split; simpl; try done.
    + intros m [= <-]. split; [by apply zip_keys|].
      split; [by rewrite zip_values|]. by eexists.
    + intros Hf. destruct (ri_finished0 Hf) as (_ & Hg & Hsc).
      split; [by eexists | done].
  - apply Hinv.
Qed.

Lemma mantri_guess_inv rid payload s :
  inv s → inv (mantri_guess rid payload s).2.
Proof.
  intros Hinv.
  destruct (mantri_guess_cases rid payload s Hinv)
    as [(c & d & ->)|(r0 & m & chor & sc & tbl' & Hr0 & Hm & Hw & Hin1 & Hin2
                      & Hacc & Hchor & Hout & Hkeys & Hcommit & Htbl' & ->)];
    [done|].
  assert (Htbl : ∀ pid p, players s !! pid = Some p →
            ∃ p', tbl' !! pid = Some p' ∧ Player.roomId p' = Player.roomId p).
  { intros pid p Hp. rewrite Htbl', Hp. destruct (PyDict.get pid sc); by eexists. }
  intros rid' r. simpl. rewrite lookup_insert.
  destruct (decide (rid = rid')) as [<-|Hne].
  - intros [= <-].
    eapply room_inv_tbl; [done|]. destruct (Hinv _ _ Hr0).
    split; simpl; try done.
    + by right.
    + split; [by eexists|]. split; [by eexists|]. by exists sc.
  - intros Hr. eapply room_inv_tbl; [done | by apply Hinv].
Qed.

(** Every admissible request preserves the invariant. *)
Lemma handle_inv q s : inv s → admissible q s → inv (handle q s).
Proof.
  intros Hinv Hq. destruct q; simpl in *.
  - done.
  - destruct Hq. by apply create_room_inv.
  - by apply join_room_inv.
  - by rewrite get_players_store.
  - by apply assign_roles_inv.
  - by rewrite get_my_role_store.
  - by apply mantri_guess_inv.
  - by rewrite get_result_store.
Qed.

Lemma reachable_inv s : reachable s → inv s.
Proof. induction 1; [apply inv_initial | by apply handle_inv]. Qed.

Lemma reachable_run qs : ∀ s,
  reachable s → admissible_all qs s → reachable (run qs s).
Proof.
  induction qs as [|q qs IH]; intros s Hs Hqs; simpl in *; [done|].
  destruct Hqs. apply IH; [by constructor | done].
Qed.

End Handlers.

(** ** Room Manager: joining *)

(** C7: [join_room] fails with 404 when the room is unknown, with 400
    ("not accepting joins", the InvalidState of the specification) when the
    status is not ["waiting"], and with 400 ("room is full", Full) when a
    waiting room already has four players, the checks being made in this
    order; a room with four players is refused with 400 whatever its status.
    No failure changes the store.  Otherwise the call succeeds: the new id is
    appended to the roster, and the player table gets one entry for it, with
    the given name and total score 0. *)
Theorem join_room_spec player_id req s :
  let rid := jr_roomId req in
  (rooms s !! rid = None →
     join_room player_id req s = (HTTPException 404 "Room not found", s))
  ∧ (∀ room, rooms s !! rid = Some room →
       (Room.status room ≠ "waiting" →
          join_room player_id req s
          = (HTTPException 400 "Room not accepting joins right now", s))
       ∧ (Room.status room = "waiting" → (4 ≤ length (Room.players room))%nat →
          join_room player_id req s
          = (HTTPException 400 "Room is full (4 players max)", s))
       ∧ ((4 ≤ length (Room.players room))%nat →
          ∃ detail, join_room player_id req s = (HTTPException 400 detail, s))
       ∧ (Room.status room = "waiting" → (length (Room.players room) < 4)%nat →
          ∃ resp room',
            join_room player_id req s
            = (Return resp,
               {| rooms := <[rid := room']> (rooms s);
                  players := <[player_id := Player.mk (jr_name req) rid 0]> (players s) |})
            ∧ ir_roomId resp = rid ∧ ir_playerId resp = player_id
            ∧ Room.players room' = Room.players room ++ [player_id]
            ∧ Room.status room' = Room.status room
            ∧ Room.roles room' = Room.roles room))
  ∧ (∀ out s', join_room player_id req s = (out, s') →
       (∀ resp, out ≠ Return resp) → s' = s).
Proof.
  intros rid. subst rid. unfold join_room. split; [by intros ->|]. split.
  - intros room ->. repeat split.
    + intros Hst. by rewrite decide_True.
    + intros Hst Hlen. rewrite decide_False by (by intros ?).
      by rewrite decide_True.
    + intros Hlen. case_decide; [by eexists|]. rewrite decide_True by done.
      by eexists.
    + intros Hst Hlen. rewrite decide_False by (by intros ?).
      rewrite decide_False by lia. by eexists _, _.
  - intros out s'. repeat case_match; intros [= <- <-] Hout; try done.
    by destruct (Hout _ eq_refl).
Qed.

(** C7, on the scenario: an unknown room, a finished room, a full waiting
    room, and a room with one player that a second one joins. *)
Lemma join_room_spec_witness :
  join_room "p2" {| jr_roomId := "q"; jr_name := "Bela" |} created
  = (HTTPException 404 "Room not found", created)
  ∧ join_room "p5" {| jr_roomId := "r"; jr_name := "Esha" |} finished
    = (HTTPException 400 "Room not accepting joins right now", finished)
  ∧ join_room "p5" {| jr_roomId := "r"; jr_name := "Esha" |} four_players
    = (HTTPException 400 "Room is full (4 players max)", four_players)
  ∧ ∃ resp room',
      join_room "p2" {| jr_roomId := "r"; jr_name := "Bela" |} created
      = (Return resp,
         {| rooms := <["r" := room']> (rooms created);
            players := <["p2" := Player.mk "Bela" "r" 0]> (players created) |})
      ∧ ir_roomId resp = "r" ∧ ir_playerId resp = "p2"
      ∧ Room.players room' = ["p1"] ++ ["p2"]
      ∧ Room.status room' = "waiting"
      ∧ Room.roles room' = None.
Proof.
  assert (Hq : rooms created !! "q" = None) by (vm_compute; reflexivity).
  assert (Hover : rooms finished !! "r" = Some over_room)
    by (vm_compute; reflexivity).
  assert (Hfour : rooms four_players !! "r" = Some four_room)
    by (vm_compute; reflexivity).
  assert (Hone : rooms created !! "r" = Some created_room)
    by (vm_compute; reflexivity).
  split; [|split; [|split]].
  - apply (proj1 (join_room_spec "p2" {| jr_roomId := "q"; jr_name := "Bela" |}
                    created) Hq).
  - apply (proj1 (proj1 (proj2 (join_room_spec "p5"
                                  {| jr_roomId := "r"; jr_name := "Esha" |}
                                  finished)) over_room Hover)).
    simpl. discriminate.
  - apply (proj1 (proj2 (proj1 (proj2 (join_room_spec "p5"
                                         {| jr_roomId := "r"; jr_name := "Esha" |}
                                         four_players)) four_room Hfour))).
    + reflexivity.
    + simpl. lia.
  - apply (proj2 (proj2 (proj2 (proj1 (proj2 (join_room_spec "p2"
                                   {| jr_roomId := "r"; jr_name := "Bela" |}
                                   created)) created_room Hone)))).
    + reflexivity.
    + simpl. lia.
Defined.

(** ** Round Engine: role assignment *)

(** In a well-formed room the role map pairs the four roster players with
    the four roles one to one, and the recorded Mantri is the roster member
    whose role is Mantri. *)
Lemma role_map_bijection tbl rid r m :
  room_inv tbl rid r → Room.roles r = Some m →
  length (Room.players r) = 4%nat
  ∧ NoDup m.*1
  ∧ (∀ pid, pid ∈ Room.players r ↔ is_Some (PyDict.get pid m))
  ∧ (∀ role, ∃ pid, PyDict.get pid m = Some role
             ∧ ∀ pid', PyDict.get pid' m = Some role → pid' = pid)
  ∧ ∃ mid, Room.mantriId r = Some mid ∧ mid ∈ Room.players r
           ∧ PyDict.get mid m = Some Mantri.
Proof.
  intros Hr Hm.
  pose proof (room_inv_roles_NoDup _ _ _ _ Hr Hm) as Hnd.
  pose proof (ri_roles _ _ _ Hr m Hm) as Hok.
  pose proof (roles_ok_length _ _ Hok) as Hlen.
  destruct Hok as (Hkeys & Hvals & mid & Hmid & Hholder).
  pose proof (shuffled_NoDup _ Hvals) as Hndv.
  split; [done|]. split; [done|]. split; [|split].
  - intros pid. by rewrite <-Hkeys, PyDictFacts.get_is_Some.
  - intros role.
    destruct (holder_is_Some role m) as [pid Hpid]; [by apply shuffled_elem_of|].
    exists pid. split; [by apply holder_get|].
    intros pid' Hpid'%PyDictFacts.get_elem_of.
    apply (holder_unique _ _ _ Hndv) in Hpid'. congruence.
  - exists mid. split; [done|].
    pose proof (holder_get _ _ _ Hnd Hholder) as Hget.
    split; [|done]. rewrite <-Hkeys. apply PyDictFacts.get_is_Some. by eexists.
Qed.

Lemma four_players_reachable : reachable four_players.
Proof.
  apply reachable_run; [constructor|]. by vm_compute.
Qed.

Lemma assigned_reachable : reachable assigned.
Proof.
  apply (reachable_handle (AssignRoles "r" roles));
    [apply four_players_reachable | by simpl].
Qed.

Lemma finished_reachable : reachable finished.
Proof.
  apply (reachable_handle (MantriGuess "r" _)); [apply assigned_reachable | by simpl].
Qed.

(** C8: when [assign_roles] succeeds, the stored role map is a bijection
    between the room's four roster players and the four roles: its keys are
    distinct and are exactly the roster, and every role has exactly one
    holder; the recorded [mantriId] is the roster member whose role is
    Mantri.  It does succeed on every room of four.  On a room with fewer than
    four players it fails with 400 (InvalidState), the store is unchanged and
    the room has no role map. *)
Theorem assign_roles_bijection rid sh s :
  reachable s → sh ≡ₚ roles →
  (∀ resp s', assign_roles rid sh s = (Return resp, s') →
     ∃ r r' m mid,
       rooms s !! rid = Some r ∧ rooms s' !! rid = Some r'
       ∧ Room.players r' = Room.players r
       ∧ length (Room.players r') = 4%nat
       ∧ Room.roles r' = Some m
       ∧ NoDup m.*1
       ∧ (∀ pid, pid ∈ Room.players r' ↔ is_Some (PyDict.get pid m))
       ∧ (∀ role, ∃ pid, PyDict.get pid m = Some role
                  ∧ ∀ pid', PyDict.get pid' m = Some role → pid' = pid)
       ∧ Room.mantriId r' = Some mid ∧ mid ∈ Room.players r'
       ∧ PyDict.get mid m = Some Mantri)
  ∧ (∀ r, rooms s !! rid = Some r → length (Room.players r) = 4%nat →
       ∃ resp s', assign_roles rid sh s = (Return resp, s'))
  ∧ (∀ r, rooms s !! rid = Some r → (length (Room.players r) < 4)%nat →
       assign_roles rid sh s
       = (HTTPException 400 "Need exactly 4 players to assign roles", s)
       ∧ Room.roles r = None).
Proof.
  intros Hs%reachable_inv Hsh.
  pose proof (assign_roles_inv rid sh s Hs Hsh) as Hinv'.
  destruct (assign_roles_cases rid sh s Hs Hsh)
    as [[Hnone Hfail]|[(r0 & Hr0 & Hlen & Hfail)
                      |(r0 & mid0 & resp0 & Hr0 & Hlen & Hmid0 & Hok)]].
  - rewrite Hfail, Hnone. by repeat split.
  - rewrite Hfail, Hr0. split; [done|]. split.
    + intros r [= <-] ?. done.
    + intros r [= <-] ?. split; [done|].
      destruct (Room.roles r0) as [m|] eqn:Hm; [|done].
      apply (ri_roles _ _ _ (Hs _ _ Hr0)), roles_ok_length in Hm. lia.
  - rewrite Hok in *. split; [|split].
    + intros resp s' [= <- <-].
      set (r' := Room.set_mantriId mid0
                   (Room.set_roles (zip (Room.players r0) sh) r0)).
      assert (Hr' : rooms (set_room rid r' s) !! rid = Some r')
        by apply lookup_insert_eq.
      destruct (role_map_bijection _ _ _ (zip (Room.players r0) sh)
                  (Hinv' _ _ Hr') eq_refl)
        as (? & ? & ? & ? & mid & ? & ? & ?).
      by exists r0, r', (zip (Room.players r0) sh), mid.
    + intros. by eexists _, _.
    + intros r Hr Hlt. simplify_eq. lia.
Qed.

Lemma shuffle_a_admissible : shuffle_a ≡ₚ roles.
Proof. apply (bool_decide_unpack _). by vm_compute. Qed.

Lemma shuffle_b_admissible : shuffle_b ≡ₚ roles.
Proof. apply (bool_decide_unpack _). by vm_compute. Qed.

(** C8, on the scenario: the fourth player has joined, roles are shuffled. *)
Lemma assign_roles_bijection_witness :
  reachable four_players ∧ shuffle_a ≡ₚ roles
  ∧ ∃ r r' m mid,
      rooms four_players !! "r" = Some r
      ∧ rooms (assign_roles "r" shuffle_a four_players).2 !! "r" = Some r'
      ∧ Room.players r' = Room.players r
      ∧ length (Room.players r') = 4%nat
      ∧ Room.roles r' = Some m
      ∧ NoDup m.*1
      ∧ (∀ pid, pid ∈ Room.players r' ↔ is_Some (PyDict.get pid m))
      ∧ (∀ role, ∃ pid, PyDict.get pid m = Some role
                 ∧ ∀ pid', PyDict.get pid' m = Some role → pid' = pid)
      ∧ Room.mantriId r' = Some mid ∧ mid ∈ Room.players r'
      ∧ PyDict.get mid m = Some Mantri.
Proof.
  split; [apply four_players_reachable|].
  split; [apply shuffle_a_admissible|].
  eapply (proj1 (assign_roles_bijection "r" shuffle_a four_players
                   four_players_reachable shuffle_a_admissible)).
  reflexivity.
Defined.

(** C1, as stated: on the scenario's room, whose roles are assigned, a second
    [assign_roles] returns normally instead of failing, and the stored role
    map and [mantriId] are replaced by those of the new shuffle. *)
Lemma assign_roles_twice_counterexample :
  Room.roles <$> rooms assigned !! "r" = Some (Some assigned_roles)
  ∧ Room.mantriId <$> rooms assigned !! "r" = Some (Some "p2")
  ∧ (∃ resp, (assign_roles "r" shuffle_b assigned).1 = Return resp)
  ∧ Room.roles <$> rooms (assign_roles "r" shuffle_b assigned).2 !! "r"
    = Some (Some [("p1", Mantri); ("p2", Raja); ("p3", Chor); ("p4", Sipahi)])
  ∧ Room.mantriId <$> rooms (assign_roles "r" shuffle_b assigned).2 !! "r"
    = Some (Some "p1")
  ∧ ¬ ((∃ code detail,
          (assign_roles "r" shuffle_b assigned).1 = HTTPException code detail)
       ∧ Room.roles <$> rooms (assign_roles "r" shuffle_b assigned).2 !! "r"
         = Room.roles <$> rooms assigned !! "r").
Proof.
  repeat split; try by vm_compute.
  - by eexists.
  - intros [(code & detail & Hfail) _]. by vm_compute in Hfail.
Qed.

(** C1 (amended): [assign_roles] has no guard against a second call.  On a
    room whose roles are already assigned it succeeds again: the role map
    becomes the zip of the roster with the new shuffle, [mantriId] becomes
    the holder of Mantri in it, and nothing else in the store changes.  The
    earlier role map survives exactly when the shuffle repeats its order. *)
Theorem assign_roles_again rid sh s r m :
  reachable s → sh ≡ₚ roles →
  rooms s !! rid = Some r → Room.roles r = Some m →
  ∃ resp mid,
    assign_roles rid sh s
    = (Return resp,
       set_room rid
         (Room.set_mantriId mid (Room.set_roles (zip (Room.players r) sh) r)) s)
    ∧ PyDict.get mid (zip (Room.players r) sh) = Some Mantri
    ∧ (zip (Room.players r) sh = m ↔ sh = m.*2).
Proof.
  intros Hs%reachable_inv Hsh Hr Hm.
  pose proof (ri_roles _ _ _ (Hs _ _ Hr) m Hm) as Hok.
  pose proof (roles_ok_length _ _ Hok) as Hlen.
  pose proof (ri_nodup _ _ _ (Hs _ _ Hr)) as Hnd.
  destruct (assign_roles_cases rid sh s Hs Hsh)
    as [[Hnone _]|[(r0 & Hr0 & Hlen0 & _)
                  |(r0 & mid & resp & Hr0 & _ & Hmid & Hok')]];
    simplify_eq.
  exists resp, mid. split; [done|]. split.
  - apply holder_get; [|done]. by rewrite zip_keys.
  - destruct Hok as (Hkeys & _). split.
    + intros <-. by rewrite zip_values.
    + intros ->. rewrite <-Hkeys. apply zip_fst_snd.
Qed.

(** C1 (amended), on the scenario, with the shuffle of the counterexample. *)
Lemma assign_roles_again_witness :
  reachable assigned ∧ shuffle_b ≡ₚ roles
  ∧ rooms assigned !! "r" = Some assigned_room
  ∧ Room.roles assigned_room = Some assigned_roles
  ∧ ∃ resp mid,
      assign_roles "r" shuffle_b assigned
      = (Return resp,
         set_room "r"
           (Room.set_mantriId mid
              (Room.set_roles (zip (Room.players assigned_room) shuffle_b)
                 assigned_room))
           assigned)
      ∧ PyDict.get mid (zip (Room.players assigned_room) shuffle_b) = Some Mantri
      ∧ (zip (Room.players assigned_room) shuffle_b = assigned_roles
         ↔ shuffle_b = assigned_roles.*2).
Proof.
  split; [apply assigned_reachable|].
  split; [apply shuffle_b_admissible|].
  split; [reflexivity|]. split; [reflexivity|].
  apply (assign_roles_again "r" shuffle_b assigned assigned_room assigned_roles
           assigned_reachable shuffle_b_admissible); reflexivity.
Defined.

(** ** The status of a room *)

(** C2, as stated: on the scenario's room a successful [assign_roles]
    leaves the status at ["waiting"]; it does not become ["assigned"]. *)
Lemma assign_roles_status_counterexample :
  status_of "r" four_players = Some "waiting"
  ∧ (∃ resp, assign_roles "r" roles four_players = (Return resp, assigned))
  ∧ status_of "r" assigned = Some "waiting"
  ∧ status_of "r" assigned ≠ Some "assigned".
Proof.
  repeat split; try by vm_compute.
  by eexists.
Qed.

(** C2 (amended): a room's status is ["waiting"] or ["finished"], never
    anything else.  A successful [assign_roles] leaves it as it was, so that
    after the assignment and until a guess succeeds the status is still
    ["waiting"]: it is ["waiting"] exactly as long as no guess is recorded.
    A successful [mantri_guess] finds the status at ["waiting"] and sets it
    to ["finished"]. *)
Theorem status_transitions rid s :
  reachable s →
  (∀ r, rooms s !! rid = Some r →
     (Room.status r = "waiting" ∨ Room.status r = "finished")
     ∧ (Room.status r = "waiting" ↔ Room.guess r = None))
  ∧ (∀ sh resp s', sh ≡ₚ roles →
       assign_roles rid sh s = (Return resp, s') →
       is_Some (status_of rid s) ∧ status_of rid s' = status_of rid s)
  ∧ (∀ payload resp s',
       mantri_guess rid payload s = (Return resp, s') →
       status_of rid s = Some "waiting" ∧ status_of rid s' = Some "finished").
Proof.
  intros Hs%reachable_inv. split; [|split].
  - intros r Hr. destruct (Hs _ _ Hr). split; [done|]. split.
    + intros Hw. by destruct (ri_waiting0 Hw).
    + intros Hg. destruct ri_status0 as [|Hf]; [done|].
      destruct (ri_finished0 Hf) as (_ & [g Hg'] & _). congruence.
  - intros sh resp s' Hsh Hassign.
    destruct (assign_roles_cases rid sh s Hs Hsh)
      as [[_ Hfail]|[(r0 & _ & _ & Hfail)
                    |(r0 & mid & resp0 & Hr0 & _ & _ & Hok)]];
      [congruence..|].
    rewrite Hok in Hassign. simplify_eq. unfold status_of, set_room. simpl.
    rewrite lookup_insert_eq, Hr0. split; [by eexists | done].
  - intros payload resp s' Hguess.
    destruct (mantri_guess_cases rid payload s Hs)
      as [(c & d & Hfail)|(r0 & m & chor & sc & tbl' & Hr0 & Hm & Hw & _ & _
                          & _ & _ & _ & _ & _ & _ & Hok)]; [congruence|].
    rewrite Hok in Hguess. simplify_eq. unfold status_of. simpl.
    rewrite lookup_insert_eq, Hr0. simpl. by rewrite Hw.
Qed.

(** C2 (amended), on the scenario. *)
Lemma status_transitions_witness :
  reachable four_players
  ∧ is_Some (status_of "r" four_players)
  ∧ status_of "r" assigned = status_of "r" four_players.
Proof.
  split; [apply four_players_reachable|].
  eapply (proj1 (proj2 (status_transitions "r" four_players
                          four_players_reachable)) roles);
    reflexivity.
Defined.

(** ** Round Engine: the guess *)

(** What a normal return of [mantri_guess] tells on a reachable store. *)
Lemma mantri_guess_Return rid payload s resp s' :
  inv s →
  mantri_guess rid payload s = (Return resp, s') →
  ∃ r m chor,
    rooms s !! rid = Some r ∧ Room.roles r = Some m
    ∧ room_inv (players s) rid r
    ∧ Room.status r = "waiting"
    ∧ gr_mantriId payload ∈ Room.players r
    ∧ holder Chor m = Some chor
    ∧ holder Mantri m = Some (gr_mantriId payload)
    ∧ round_outcome m chor payload
      = Some (gs_message resp, gs_roundScores resp)
    ∧ s' = {| rooms := <[rid := finished_room payload (gs_roundScores resp)
                              (Some (gs_roundScores resp)) r]> (rooms s);
              players := players s' |}.
Proof.
  intros Hinv Hguess.
  destruct (mantri_guess_cases rid payload s Hinv)
    as [(c & d & Hfail)|(r & m & chor & sc & tbl' & Hr & Hm & Hw & Hin1 & _
                        & Hacc & Hchor & Hout & _ & _ & _ & Hok)];
    [congruence|].
  rewrite Hok in Hguess. injection Hguess as <- <-. exists r, m, chor.
  destruct (ri_roles _ _ _ (Hinv _ _ Hr) m Hm) as (_ & _ & mid & Hmid & Hh).
  simpl. repeat (split; [by auto || congruence|]). done.
Qed.

Lemma expected_score_table :
  expected_score true Raja = 1000 ∧ expected_score true Mantri = 800
  ∧ expected_score true Sipahi = 500 ∧ expected_score true Chor = 0
  ∧ expected_score false Raja = 1000 ∧ expected_score false Mantri = 0
  ∧ expected_score false Sipahi = 500 ∧ expected_score false Chor = 800.
Proof. by repeat split. Qed.

(** C3: when [mantri_guess] succeeds, every player's round score is the
    base value of the player's role (Raja 1000, Mantri 800, Sipahi 500,
    Chor 0) if the target is the true Chor, in which case the score map is
    just the base map; otherwise the Chor has its base value plus the
    Mantri's 800 and the accusing Mantri has 0, the other two keeping their
    base values.  The message is [msg_correct] in the first case and
    [msg_incorrect] in the second, and the two differ.  The score map has
    one entry per roster player and is what the room stores. *)
Theorem mantri_guess_scores rid payload s resp s' :
  reachable s →
  mantri_guess rid payload s = (Return resp, s') →
  ∃ r m chor,
    rooms s !! rid = Some r ∧ Room.roles r = Some m
    ∧ PyDict.get chor m = Some Chor
    ∧ PyDict.get (gr_mantriId payload) m = Some Mantri
    ∧ (gs_roundScores resp).*1 = Room.players r
    ∧ (∀ pid role, PyDict.get pid m = Some role →
         PyDict.get pid (gs_roundScores resp)
         = Some (expected_score (bool_decide (gr_targetId payload = chor)) role))
    ∧ (gr_targetId payload = chor →
         gs_roundScores resp = base_scores m ∧ gs_message resp = msg_correct)
    ∧ (gr_targetId payload ≠ chor →
         PyDict.get chor (gs_roundScores resp) = Some (BASE_POINTS Chor + 800)
         ∧ PyDict.get (gr_mantriId payload) (gs_roundScores resp) = Some 0
         ∧ gs_message resp = msg_incorrect)
    ∧ msg_correct ≠ msg_incorrect
    ∧ Room.scores <$> rooms s' !! rid = Some (Some (gs_roundScores resp)).
Proof.
  intros Hs%reachable_inv Hguess.
  destruct (mantri_guess_Return _ _ _ _ _ Hs Hguess)
    as (r & m & chor & Hr & Hm & Hrinv & Hw & Hin & Hchor & Hmantri & Hout & ->).
  pose proof (room_inv_roles_NoDup _ _ _ _ Hrinv Hm) as Hnd.
  destruct (ri_roles _ _ _ Hrinv m Hm) as (Hkeys & Hvals & _).
  destruct (round_outcome_scores m chor payload Hnd Hvals Hchor Hmantri)
    as (sc & Hout' & Hsckeys & _ & Hsc).
  rewrite Hout in Hout'. injection Hout' as Hmsg <-.
  pose proof (holder_get _ _ _ Hnd Hchor) as Hgc.
  pose proof (holder_get _ _ _ Hnd Hmantri) as Hgm.
  exists r, m, chor. repeat (split; [done || congruence|]).
  split; [|split; [|split]].
  - intros Htgt. rewrite Hmsg, bool_decide_eq_true_2 by done.
    split; [|done]. revert Hout. unfold round_outcome.
    rewrite decide_True by done. congruence.
  - intros Htgt. rewrite Hmsg, bool_decide_eq_false_2 by done.
    rewrite (Hsc _ _ Hgc), (Hsc _ _ Hgm), bool_decide_eq_false_2 by done.
    done.
  - done.
  - simpl. by rewrite lookup_insert_eq.
Qed.

Lemma guess_right_assigned :
  mantri_guess "r" guess_right assigned = (Return right_resp, finished).
Proof. vm_compute. reflexivity. Qed.

Lemma guess_wrong_assigned :
  mantri_guess "r" guess_wrong assigned
  = (Return wrong_resp, handle (MantriGuess "r" guess_wrong) assigned).
Proof. vm_compute. reflexivity. Qed.

(** C3, on the scenario with the wrong guess: the Mantri [p2] names [p1]. *)
Lemma mantri_guess_scores_witness :
  reachable assigned
  ∧ mantri_guess "r" guess_wrong assigned
    = (Return wrong_resp, handle (MantriGuess "r" guess_wrong) assigned)
  ∧ ∃ r m chor,
      rooms assigned !! "r" = Some r ∧ Room.roles r = Some m
      ∧ PyDict.get chor m = Some Chor
      ∧ PyDict.get (gr_mantriId guess_wrong) m = Some Mantri
      ∧ (gs_roundScores wrong_resp).*1 = Room.players r
      ∧ (∀ pid role, PyDict.get pid m = Some role →
           PyDict.get pid (gs_roundScores wrong_resp)
           = Some (expected_score
                     (bool_decide (gr_targetId guess_wrong = chor)) role))
      ∧ (gr_targetId guess_wrong = chor →
           gs_roundScores wrong_resp = base_scores m
           ∧ gs_message wrong_resp = msg_correct)
      ∧ (gr_targetId guess_wrong ≠ chor →
           PyDict.get chor (gs_roundScores wrong_resp)
           = Some (BASE_POINTS Chor + 800)
           ∧ PyDict.get (gr_mantriId guess_wrong) (gs_roundScores wrong_resp)
             = Some 0
           ∧ gs_message wrong_resp = msg_incorrect)
      ∧ msg_correct ≠ msg_incorrect
      ∧ Room.scores <$> rooms (handle (MantriGuess "r" guess_wrong) assigned) !! "r"
        = Some (Some (gs_roundScores wrong_resp)).
Proof.
  split; [apply assigned_reachable|].
  split; [apply guess_wrong_assigned|].
  apply (mantri_guess_scores "r" guess_wrong assigned wrong_resp _
           assigned_reachable guess_wrong_assigned).
Defined.

(** Looking every key up gives the values, in order. *)
Lemma lookup_all_keys (d : PyDict.t Z) :
  NoDup d.*1 → (λ k, default 0 (PyDict.get k d)) <$> d.*1 = d.*2.
Proof.
  induction d as [|[k v] d IH]; intros Hnd; [done|].
  rewrite !fmap_cons in *. apply NoDup_cons in Hnd as [Hk Hnd]. simpl in *.
  rewrite decide_True by done. simpl. f_equal. rewrite <-IH by done.
  apply list_fmap_ext. intros i k' Hk'. rewrite decide_False; [done|].
  intros ->. apply Hk. by eapply list_elem_of_lookup_2.
Qed.

(** C6: the round scores of a successful [mantri_guess] are those of the
    four players of the room: the keys of the returned map are the room's
    roster, which has four players, and the scores of these four players add
    up to 2300, whether the guess is right or wrong. *)
Theorem mantri_guess_total rid payload s resp s' :
  reachable s →
  mantri_guess rid payload s = (Return resp, s') →
  (∃ r, rooms s !! rid = Some r
     ∧ length (Room.players r) = 4%nat
     ∧ (gs_roundScores resp).*1 = Room.players r
     ∧ foldr Z.add 0
         ((λ pid, default 0 (PyDict.get pid (gs_roundScores resp)))
            <$> Room.players r)
       = 2300)
  ∧ length (gs_roundScores resp) = 4%nat ∧ total (gs_roundScores resp) = 2300.
Proof.
  intros Hs%reachable_inv Hguess.
  destruct (mantri_guess_Return _ _ _ _ _ Hs Hguess)
    as (r & m & chor & Hr & Hm & Hrinv & Hw & Hin & Hchor & Hmantri & Hout & _).
  pose proof (room_inv_roles_NoDup _ _ _ _ Hrinv Hm) as Hnd.
  pose proof (ri_roles _ _ _ Hrinv m Hm) as Hok.
  pose proof (roles_ok_length _ _ Hok) as Hlen.
  destruct Hok as (Hkeys & Hvals & _).
  destruct (round_outcome_scores m chor payload Hnd Hvals Hchor Hmantri)
    as (sc & Hout' & Hsckeys & Htotal & _).
  rewrite Hout in Hout'. injection Hout' as _ <-.
  assert (Hroster : (gs_roundScores resp).*1 = Room.players r)
    by (by rewrite Hsckeys).
  split; [|split; [|done]].
  - exists r. split; [done|]. split; [done|]. split; [done|].
    rewrite <-Hroster, lookup_all_keys by (by rewrite Hsckeys). exact Htotal.
  - by rewrite <-(length_fmap fst), Hsckeys, Hkeys.
Qed.

(** C6, on the scenario, for the right and for the wrong guess. *)
Lemma mantri_guess_total_witness :
  reachable assigned
  ∧ mantri_guess "r" guess_right assigned = (Return right_resp, finished)
  ∧ mantri_guess "r" guess_wrong assigned
    = (Return wrong_resp, handle (MantriGuess "r" guess_wrong) assigned)
  ∧ ((∃ r, rooms assigned !! "r" = Some r
        ∧ length (Room.players r) = 4%nat
        ∧ (gs_roundScores right_resp).*1 = Room.players r
        ∧ foldr Z.add 0
            ((λ pid, default 0 (PyDict.get pid (gs_roundScores right_resp)))
               <$> Room.players r)
          = 2300)
     ∧ length (gs_roundScores right_resp) = 4%nat
     ∧ total (gs_roundScores right_resp) = 2300)
  ∧ ((∃ r, rooms assigned !! "r" = Some r
        ∧ length (Room.players r) = 4%nat
        ∧ (gs_roundScores wrong_resp).*1 = Room.players r
        ∧ foldr Z.add 0
            ((λ pid, default 0 (PyDict.get pid (gs_roundScores wrong_resp)))
               <$> Room.players r)
          = 2300)
     ∧ length (gs_roundScores wrong_resp) = 4%nat
     ∧ total (gs_roundScores wrong_resp) = 2300).
Proof.
  split; [apply assigned_reachable|].
  split; [apply guess_right_assigned|].
  split; [apply guess_wrong_assigned|]. split.
  - apply (mantri_guess_total "r" guess_right assigned right_resp finished
             assigned_reachable guess_right_assigned).
  - apply (mantri_guess_total "r" guess_wrong assigned wrong_resp _
             assigned_reachable guess_wrong_assigned).
Defined.

(** C9: when [mantri_guess] succeeds, every player listed in the round
    score map has the listed points added to the cumulative total (name and
    room are kept) and to the leaderboard entry, which counts from 0 if there
    was none; players and leaderboard entries not listed are untouched.  This
    holds on every store whose role map is a dictionary (distinct keys), so
    also where totals and leaderboard are not 0 beforehand.  [get_result] on
    the finished room returns normally, with the stored score map, and gives
    back the store it received, so that a second call returns the same. *)
Theorem mantri_guess_accumulates rid payload s resp s' r m :
  rooms s !! rid = Some r → Room.roles r = Some m → NoDup m.*1 →
  mantri_guess rid payload s = (Return resp, s') →
  (∀ pid pts, PyDict.get pid (gs_roundScores resp) = Some pts →
     ∃ p, players s !! pid = Some p
          ∧ players s' !! pid
            = Some (Player.mk (Player.name p) (Player.roomId p)
                      (Player.totalScore p + pts)))
  ∧ (∀ pid, PyDict.get pid (gs_roundScores resp) = None →
       players s' !! pid = players s !! pid)
  ∧ (∃ r' lb',
       rooms s' !! rid = Some r'
       ∧ Room.scores r' = Some (gs_roundScores resp)
       ∧ Room.leaderboard r' = Some lb'
       ∧ (∀ pid,
            PyDict.get pid lb' =
            match PyDict.get pid (gs_roundScores resp) with
            | Some pts =>
                Some (default 0 (PyDict.get pid
                                   (default PyDict.empty (Room.leaderboard r)))
                      + pts)
            | None => PyDict.get pid (default PyDict.empty (Room.leaderboard r))
            end)
       ∧ (get_result rid s').1
         = Return {| rr_roomId := rid;
                     rr_roles := m;
                     rr_guess := Some (Guess.mk (gr_mantriId payload)
                                         (gr_targetId payload));
                     rr_roundScores := Some (gs_roundScores resp);
                     rr_leaderboard := lb' |})
  ∧ (get_result rid s').2 = s'
  ∧ get_result rid (get_result rid s').2 = get_result rid s'.
Proof.
  intros Hr Hm Hnd Hguess.
  destruct (mantri_guess_Return_inv _ _ _ _ _ Hguess)
    as (r0 & m0 & chor & msg & sc & tbl' & lb' & Hr0 & Hm0 & Hne & _ & _
        & Hout & Hcommit & -> & ->).
  rewrite Hr in Hr0. injection Hr0 as <-.
  rewrite Hm in Hm0. injection Hm0 as <-. simpl.
  pose proof (round_outcome_NoDup _ _ _ _ _ Hnd Hout) as Hndsc.
  pose proof (round_outcome_nonempty _ _ _ _ _ Hne Hout) as Hnesc.
  pose proof (commit_scores_completes _ _ _ _ _ Hcommit) as Hdom.
  destruct (commit_scores_players sc (players s) (Room.leaderboard r) Hndsc Hdom)
    as (tbl'' & lb'' & Hcommit' & Htbl).
  rewrite Hcommit in Hcommit'. injection Hcommit' as <- <-.
  split; [|split; [|split; [|split]]].
  - intros pid pts Hpts. destruct (Hdom pid) as [p Hp].
    { apply PyDictFacts.get_is_Some. by eexists. }
    exists p. by rewrite Htbl, Hpts, Hp.
  - intros pid Hpid. by rewrite Htbl, Hpid.
  - rewrite (commit_scores_board _ _ _ _ _ Hcommit).
    destruct (board_after_get sc (Room.leaderboard r) rid Hndsc Hnesc)
      as (lb1 & Hlb1 & _).
    eexists _, lb1. rewrite lookup_insert_eq. split; [done|].
    split; [done|]. split; [done|]. split.
    + intros pid.
      destruct (board_after_get sc (Room.leaderboard r) pid Hndsc Hnesc)
        as (lb2 & Hlb2 & Hget).
      by simplify_eq.
    + unfold get_result. simpl. rewrite lookup_insert_eq. simpl.
      by rewrite Hm, Hlb1.
  - apply get_result_store.
  - by rewrite get_result_store.
Qed.

Lemma with_history_room : rooms with_history !! "r" = Some history_room.
Proof. vm_compute. reflexivity. Qed.

Lemma guess_wrong_with_history :
  mantri_guess "r" guess_wrong with_history
  = (Return wrong_resp, handle (MantriGuess "r" guess_wrong) with_history).
Proof. vm_compute. reflexivity. Qed.

Lemma with_history_p3 :
  players with_history !! "p3" = Some (Player.mk "Chit" "r" 70).
Proof. vm_compute. reflexivity. Qed.

(** C9, on a store with history: [p3] enters the round with 70 points in
    total and on the leaderboard, and leaves it with 870 in both. *)
Lemma mantri_guess_accumulates_witness :
  rooms with_history !! "r" = Some history_room
  ∧ Room.roles history_room = Some assigned_roles
  ∧ NoDup assigned_roles.*1
  ∧ mantri_guess "r" guess_wrong with_history
    = (Return wrong_resp, handle (MantriGuess "r" guess_wrong) with_history)
  ∧ PyDict.get "p3" (gs_roundScores wrong_resp) = Some 800
  ∧ players with_history !! "p3" = Some (Player.mk "Chit" "r" 70)
  ∧ players (handle (MantriGuess "r" guess_wrong) with_history) !! "p3"
    = Some (Player.mk "Chit" "r" 870)
  ∧ PyDict.get "p3" (default PyDict.empty (Room.leaderboard history_room))
    = Some 70
  ∧ ∃ r' lb',
      rooms (handle (MantriGuess "r" guess_wrong) with_history) !! "r" = Some r'
      ∧ Room.leaderboard r' = Some lb'
      ∧ PyDict.get "p3" lb' = Some 870.
Proof.
  assert (Hnd : NoDup assigned_roles.*1)
    by (apply (bool_decide_unpack _); by vm_compute).
  destruct (mantri_guess_accumulates "r" guess_wrong with_history wrong_resp _
              history_room assigned_roles with_history_room eq_refl Hnd
              guess_wrong_with_history)
    as (Htot & _ & (r' & lb' & Hr' & _ & Hlb' & Hget & _) & _).
  split; [exact with_history_room|]. split; [reflexivity|].
  split; [exact Hnd|]. split; [exact guess_wrong_with_history|].
  split; [reflexivity|]. split; [exact with_history_p3|].
  split; [|split; [reflexivity|]].
  - destruct (Htot "p3" 800 eq_refl) as (p & Hp & ->).
    rewrite with_history_p3 in Hp. injection Hp as <-. reflexivity.
  - exists r', lb'. split; [exact Hr'|]. split; [exact Hlb'|].
    rewrite (Hget "p3"). reflexivity.
Defined.

(** ** The player table covers every roster *)

Lemma players_list_Some tbl roster :
  (∀ pid, pid ∈ roster → is_Some (tbl !! pid)) →
  ∃ l, players_list tbl roster = Some l ∧ pe_playerId <$> l = roster.
Proof.
  unfold players_list. induction roster as [|pid roster IH]; intros Hdom.
  - by exists [].
  - destruct (Hdom pid) as [p Hp]; [left|].
    destruct IH as (l & Hl & Hids); [intros; apply Hdom; by right|].
    exists ({| pe_playerId := pid; pe_name := Player.name p |} :: l). split.
    + simpl. rewrite Hp. simpl. by rewrite Hl.
    + by rewrite fmap_cons, Hids.
Qed.

(** C10: in every store the server can reach, every id of every roster is a
    key of the player table, and the keys of a room's role map, round score
    map and leaderboard are roster ids.  Hence [get_players] on a known room
    always returns, listing the roster in order, and no Python exception
    escapes from [mantri_guess]. *)
Theorem roster_in_player_table s :
  reachable s →
  (∀ rid r, rooms s !! rid = Some r →
     (∀ pid, pid ∈ Room.players r → is_Some (players s !! pid))
     ∧ (∀ m pid, Room.roles r = Some m → pid ∈ m.*1 → pid ∈ Room.players r)
     ∧ (∀ sc pid, Room.scores r = Some sc → pid ∈ sc.*1 → pid ∈ Room.players r)
     ∧ (∀ lb pid, Room.leaderboard r = Some lb → pid ∈ lb.*1 →
          pid ∈ Room.players r)
     ∧ ∃ resp, get_players rid s = (Return resp, s)
               ∧ pe_playerId <$> pr_players resp = Room.players r)
  ∧ (∀ rid payload e, (mantri_guess rid payload s).1 ≠ Uncaught e).
Proof.
  intros Hs%reachable_inv. split.
  - intros rid r Hr. pose proof (Hs _ _ Hr) as Hrinv.
    assert (Hdom : ∀ pid, pid ∈ Room.players r → is_Some (players s !! pid)).
    { intros pid Hpid.
      destruct (ri_members _ _ _ Hrinv pid Hpid) as (p & -> & _). by eexists. }
    assert (Hlate : ∀ sc, Room.scores r = Some sc ∨ Room.leaderboard r = Some sc →
              sc.*1 = Room.players r).
    { intros sc Hsc. destruct (ri_status _ _ _ Hrinv) as [Hw|Hf].
      - destruct (ri_waiting _ _ _ Hrinv Hw) as (_ & ? & ?).
        destruct Hsc; congruence.
      - destruct (ri_finished _ _ _ Hrinv Hf) as (_ & _ & sc' & ? & ? & ?).
        destruct Hsc; congruence. }
    split; [done|]. split; [|split; [|split]].
    + intros m pid Hm. by destruct (ri_roles _ _ _ Hrinv m Hm) as (-> & _).
    + intros sc pid Hsc. rewrite (Hlate sc); auto.
    + intros lb pid Hlb. rewrite (Hlate lb); auto.
    + destruct (players_list_Some (players s) (Room.players r) Hdom)
        as (l & Hl & Hids).
      unfold get_players. rewrite Hr, Hl. by eexists.
  - intros rid payload e.
    by destruct (mantri_guess_cases rid payload s Hs)
      as [(c & d & ->)|(? & ? & ? & ? & ? & _ & _ & _ & _ & _ & _ & _ & _ & _
                        & _ & _ & ->)].
Qed.

Lemma finished_over_room : rooms finished !! "r" = Some over_room.
Proof. vm_compute. reflexivity. Qed.

(** C10, on the finished round of the scenario. *)
Lemma roster_in_player_table_witness :
  reachable finished
  ∧ rooms finished !! "r" = Some over_room
  ∧ (∀ pid, pid ∈ Room.players over_room → is_Some (players finished !! pid))
  ∧ ∃ resp, get_players "r" finished = (Return resp, finished)
            ∧ pe_playerId <$> pr_players resp = Room.players over_room.
Proof.
  split; [apply finished_reachable|].
  destruct (proj1 (roster_in_player_table finished finished_reachable) "r"
              over_room finished_over_room)
    as (Hdom & _ & _ & _ & Hget).
  split; [exact finished_over_room|]. split; [exact Hdom | exact Hget].
Defined.

(** ** Round Engine: reading one's role *)

(** What [get_my_role] does, case by case; it never changes the store. *)
Lemma get_my_role_cases rid pid s :
  (get_my_role rid pid s).2 = s
  ∧ (rooms s !! rid = None →
       (get_my_role rid pid s).1 = Return (RoleError "Room not found"))
  ∧ (∀ r m, rooms s !! rid = Some r → Room.roles r = Some m →
       (get_my_role rid pid s).1
       = match PyDict.get pid m with
         | Some role => Return (RoleOf pid role)
         | None => Return (RoleError "Player not found")
         end)
  ∧ (∀ r, rooms s !! rid = Some r → Room.roles r = None →
       (get_my_role rid pid s).1 = Uncaught KeyError).
Proof.
  split; [apply get_my_role_store|]. unfold get_my_role.
  split; [by intros ->|]. split.
  - intros r m -> ->. by destruct (PyDict.get pid m).
  - by intros r -> ->.
Qed.

(** C4: the room has just been created and no roles are assigned; the
    creator asks for their role.  The subscript [rooms[roomId]["roles"]]
    raises [KeyError]: the handler does not return the "not found" payload
    that it returns for an unknown room or an unknown player. *)
Theorem get_my_role_before_assignment :
  reachable created
  ∧ (∃ r, rooms created !! "r" = Some r ∧ Room.roles r = None
          ∧ "p1" ∈ Room.players r)
  ∧ get_my_role "r" "p1" created = (Uncaught KeyError, created)
  ∧ get_my_role "q" "p1" created = (Return (RoleError "Room not found"), created)
  ∧ get_my_role "r" "p9" assigned
    = (Return (RoleError "Player not found"), assigned).
Proof.
  split.
  { apply (reachable_handle (CreateRoom "r" "p1" _)); [constructor | done]. }
  split; [|done].
  eexists. split; [reflexivity|]. split; [done|]. simpl. left.
Qed.

(** ** A finished round stays as it is *)

Section FinishedRound.
Variable rid : string.

Lemma round_record_eq s s' r r' :
  rooms s !! rid = Some r → rooms s' !! rid = Some r' →
  Room.players r' = Room.players r → Room.guess r' = Room.guess r →
  Room.scores r' = Room.scores r → Room.leaderboard r' = Room.leaderboard r →
  (∀ pid, pid ∈ Room.players r → players s' !! pid = players s !! pid) →
  round_record rid s' = round_record rid s.
Proof.
  intros Hr Hr' Hp Hg Hsc Hlb Htbl. unfold round_record.
  rewrite Hr, Hr'. simpl. rewrite Hp, Hg, Hsc, Hlb. do 2 f_equal.
  apply list_fmap_ext. intros i pid Hi. rewrite Htbl; [done|].
  by eapply list_elem_of_lookup_2.
Qed.

(** Nothing that changes only other rooms and fresh or foreign players
    touches the record. *)
Lemma round_record_frame s s' r :
  rooms s !! rid = Some r → rooms s' !! rid = Some r →
  (∀ pid, pid ∈ Room.players r → players s' !! pid = players s !! pid) →
  Room.status r = "finished" →
  finished_at rid s' ∧ round_record rid s' = round_record rid s.
Proof.
  intros Hr Hr' Htbl Hf. split; [by exists r|].
  by apply (round_record_eq s s' r r).
Qed.

Lemma handle_finished q s :
  inv s → admissible q s → finished_at rid s →
  finished_at rid (handle q s)
  ∧ round_record rid (handle q s) = round_record rid s.
Proof.
  intros Hinv Hq (r & Hr & Hf).
  pose proof (Hinv _ _ Hr) as Hrinv.
  assert (Hsame : finished_at rid s ∧ round_record rid s = round_record rid s)
    by (split; [by exists r | done]).
  assert (Hfresh : ∀ pid, players s !! pid = None → pid ∉ Room.players r).
  { intros pid Hnone Hin.
    destruct (ri_members _ _ _ Hrinv pid Hin) as (p & Hp & _). congruence. }
  destruct q as [|room_id player_id req|player_id req|rid0|rid0 sh|rid0 pid0
                |rid0 payload|rid0]; simpl in *.
  - done.
  - destruct Hq as [Hroom Hplayer].
    apply (round_record_frame _ _ r); simpl; [done| |  |done].
    + rewrite lookup_insert_ne; [done|]. intros ->. congruence.
    + intros pid Hpid. rewrite lookup_insert_ne; [done|].
      intros ->. by apply (Hfresh pid).
  - unfold join_room.
    destruct (rooms s !! jr_roomId req) as [r0|] eqn:Hr0; [|done].
    case_decide as Hst; [done|]. case_decide as Hlen; [done|].
    apply (round_record_frame _ _ r); simpl; [done| |  |done].
    + rewrite lookup_insert_ne; [done|]. intros Heq. rewrite Heq in Hr0.
      congruence.
    + intros pid Hpid. rewrite lookup_insert_ne; [done|].
      intros ->. by apply (Hfresh pid).
  - by rewrite get_players_store.
  - destruct (assign_roles_cases rid0 sh s Hinv Hq)
      as [[_ ->]|[(r0 & _ & _ & ->)|(r0 & mid & resp & Hr0 & _ & _ & ->)]];
      [done..|].
    unfold set_room. simpl. destruct (decide (rid0 = rid)) as [->|Hne].
    + simplify_eq. split.
      * eexists. split; [apply lookup_insert_eq | done].
      * eapply round_record_eq; [done | apply lookup_insert_eq | done..].
    + apply (round_record_frame _ _ r); simpl; [done| |done..].
      by rewrite lookup_insert_ne.
  - by rewrite get_my_role_store.
  - destruct (mantri_guess_cases rid0 payload s Hinv)
      as [(c & d & ->)|(r0 & m & chor & sc & tbl' & Hr0 & Hm & Hw & _ & _ & _
                        & _ & _ & Hkeys & _ & Htbl' & ->)]; [done|].
    assert (Hne : rid0 ≠ rid) by (intros ->; congruence).
    apply (round_record_frame _ _ r); simpl; [done| |  |done].
    + by rewrite lookup_insert_ne.
    + intros pid Hpid. rewrite Htbl'.
      destruct (PyDict.get pid sc) as [pts|] eqn:Hpts; [|done].
      assert (Hin0 : pid ∈ Room.players r0).
      { rewrite <-Hkeys. apply PyDictFacts.get_is_Some. by eexists. }
      destruct (ri_members _ _ _ Hrinv pid Hpid) as (p & Hp & Hrid).
      destruct (ri_members _ _ _ (Hinv _ _ Hr0) pid Hin0) as (p0 & Hp0 & Hrid0).
      congruence.
  - by rewrite get_result_store.
Qed.

Lemma run_finished qs : ∀ s,
  inv s → admissible_all qs s → finished_at rid s →
  inv (run qs s) ∧ finished_at rid (run qs s)
  ∧ round_record rid (run qs s) = round_record rid s.
Proof.
  induction qs as [|q qs IH]; intros s Hinv Hqs Hf; simpl in *; [done|].
  destruct Hqs as [Hq Hqs].
  destruct (handle_finished q s Hinv Hq Hf) as [Hf' Hrec].
  destruct (IH (handle q s)) as (? & ? & ?); [by apply handle_inv | done..|].
  split; [done|]. split; [done|]. congruence.
Qed.

(** On a finished room [mantri_guess] refuses, whatever the payload, and
    returns the store as it is; the payload decides which refusal it is. *)
Lemma mantri_guess_finished payload s r :
  inv s → rooms s !! rid = Some r → Room.status r = "finished" →
  (gr_mantriId payload ∉ Room.players r
   ∨ gr_targetId payload ∉ Room.players r →
   mantri_guess rid payload s = (HTTPException 404 "Invalid player id(s)", s))
  ∧ (gr_mantriId payload ∈ Room.players r →
     gr_targetId payload ∈ Room.players r →
     Room.mantriId r ≠ Some (gr_mantriId payload) →
     mantri_guess rid payload s
     = (HTTPException 403 "Only the Mantri can submit a guess", s))
  ∧ (gr_mantriId payload ∈ Room.players r →
     gr_targetId payload ∈ Room.players r →
     Room.mantriId r = Some (gr_mantriId payload) →
     mantri_guess rid payload s
     = (HTTPException 400 "Round already finished", s)).
Proof.
  intros Hinv Hr Hf. pose proof (Hinv _ _ Hr) as Hrinv.
  destruct (ri_finished _ _ _ Hrinv Hf) as ([m Hm] & _).
  pose proof (roles_ok_length _ _ (ri_roles _ _ _ Hrinv m Hm)) as Hlen.
  destruct (ri_roles _ _ _ Hrinv m Hm) as (Hkeys & _).
  unfold mantri_guess. rewrite Hr, Hm.
  destruct m as [|e m0] eqn:Hm0.
  { rewrite <-Hkeys in Hlen. done. }
  split; [|split].
  - intros Hmem. by rewrite decide_True.
  - intros Hin1 Hin2 Hacc. rewrite decide_False by tauto.
    by rewrite decide_True.
  - intros Hin1 Hin2 Hacc. rewrite decide_False by tauto.
    rewrite decide_False by (by intros ?). by rewrite decide_True.
Qed.

End FinishedRound.

(** C5, as stated: the round of the scenario is over.  A further
    [mantri_guess] that names an unknown target is refused with 404
    (NotFound), and one sent by a player who is not the Mantri with 403
    (Forbidden): neither is the 400 (InvalidState) of the claim. *)
Lemma mantri_guess_again_counterexample :
  (∃ resp, mantri_guess "r" guess_right assigned = (Return resp, finished))
  ∧ mantri_guess "r" guess_unknown_target finished
    = (HTTPException 404 "Invalid player id(s)", finished)
  ∧ mantri_guess "r" guess_by_raja finished
    = (HTTPException 403 "Only the Mantri can submit a guess", finished)
  ∧ ¬ (∃ detail, (mantri_guess "r" guess_unknown_target finished).1
                 = HTTPException 400 detail).
Proof.
  split; [by eexists|]. split; [by vm_compute|]. split; [by vm_compute|].
  intros [detail Hd]. by vm_compute in Hd.
Qed.

(** C5 (amended): after one successful [mantri_guess] on a room, and
    whatever requests the server handles afterwards, every further
    [mantri_guess] on that room is refused and returns the store unchanged.
    The room is still there, with the roster that the round scores are keyed
    by, and the refusal is 404 "Invalid player id(s)" (NotFound) when one of
    the two ids is not on that roster, else 403 "Only the Mantri can submit a
    guess" (Forbidden) when the accuser is not the recorded Mantri, and
    400 "Round already finished" (InvalidState) when the payload passes
    these two checks.  Throughout, the room's guess record, round score map
    and leaderboard and the cumulative totals of its players stay those that
    the successful call left. *)
Theorem mantri_guess_once rid payload s resp s1 qs payload' :
  reachable s →
  mantri_guess rid payload s = (Return resp, s1) →
  admissible_all qs s1 →
  (∃ r2,
     rooms (run qs s1) !! rid = Some r2
     ∧ Room.players r2 = (gs_roundScores resp).*1
     ∧ (gr_mantriId payload' ∉ Room.players r2
        ∨ gr_targetId payload' ∉ Room.players r2 →
        mantri_guess rid payload' (run qs s1)
        = (HTTPException 404 "Invalid player id(s)", run qs s1))
     ∧ (gr_mantriId payload' ∈ Room.players r2 →
        gr_targetId payload' ∈ Room.players r2 →
        Room.mantriId r2 ≠ Some (gr_mantriId payload') →
        mantri_guess rid payload' (run qs s1)
        = (HTTPException 403 "Only the Mantri can submit a guess", run qs s1))
     ∧ (gr_mantriId payload' ∈ Room.players r2 →
        gr_targetId payload' ∈ Room.players r2 →
        Room.mantriId r2 = Some (gr_mantriId payload') →
        mantri_guess rid payload' (run qs s1)
        = (HTTPException 400 "Round already finished", run qs s1)))
  ∧ (∃ code detail,
       mantri_guess rid payload' (run qs s1)
       = (HTTPException code detail, run qs s1)
       ∧ (code, detail) ∈ late_guess_errors
       ∧ ∀ r2, rooms (run qs s1) !! rid = Some r2 →
           gr_mantriId payload' ∈ Room.players r2 →
           gr_targetId payload' ∈ Room.players r2 →
           Room.mantriId r2 = Some (gr_mantriId payload') →
           code = 400 ∧ detail = "Round already finished")
  ∧ round_record rid (run qs s1) = round_record rid s1
  ∧ ∃ totals,
      round_record rid s1
      = Some (Some (Guess.mk (gr_mantriId payload) (gr_targetId payload)),
              Some (gs_roundScores resp), Some (gs_roundScores resp), totals).
Proof.
  intros Hs%reachable_inv Hguess Hqs.
  pose proof (mantri_guess_inv rid payload s Hs) as Hinv1.
  rewrite Hguess in Hinv1. simpl in Hinv1.
  destruct (mantri_guess_Return _ _ _ _ _ Hs Hguess)
    as (r & m & chor & Hr & _ & _ & _ & _ & _ & _ & _ & Hs1).
  assert (Hr1 : rooms s1 !! rid
                = Some (finished_room payload (gs_roundScores resp)
                          (Some (gs_roundScores resp)) r)).
  { rewrite Hs1. simpl. apply lookup_insert_eq. }
  assert (Hf1 : finished_at rid s1) by (by eexists).
  destruct (run_finished rid qs s1 Hinv1 Hqs Hf1)
    as (Hinv2 & (r2 & Hr2 & Hf2) & Hrec).
  destruct (mantri_guess_finished rid payload' _ r2 Hinv2 Hr2 Hf2)
    as (H404 & H403 & H400).
  assert (Hroster : Room.players r2 = (gs_roundScores resp).*1).
  { destruct (ri_finished _ _ _ (Hinv2 _ _ Hr2) Hf2)
      as (_ & _ & sc & Hsc & _ & Hkeys).
    revert Hrec. unfold round_record. rewrite Hr2, Hr1. simpl.
    intros [= _ Hsc2 _ _]. congruence. }
  split; [by exists r2|]. split; [|split; [done|]].
  - unfold late_guess_errors.
    destruct (decide (gr_mantriId payload' ∉ Room.players r2
                      ∨ gr_targetId payload' ∉ Room.players r2))
      as [Hmem|Hmem].
    { eexists _, _. split; [by apply H404|]. split; [left|].
      intros r2' Hr2'. rewrite Hr2 in Hr2'. injection Hr2' as <-. tauto. }
    assert (Hin1 : gr_mantriId payload' ∈ Room.players r2).
    { apply dec_stable. intros ?. apply Hmem. by left. }
    assert (Hin2 : gr_targetId payload' ∈ Room.players r2).
    { apply dec_stable. intros ?. apply Hmem. by right. }
    destruct (decide (Room.mantriId r2 = Some (gr_mantriId payload')))
      as [Hacc|Hacc].
    + eexists _, _. split; [by apply H400|]. split; [do 2 right; left|]. done.
    + eexists _, _. split; [by apply H403|]. split; [right; left|].
      intros r2' Hr2'. rewrite Hr2 in Hr2'. by injection Hr2' as <-.
  - unfold round_record. rewrite Hr1. simpl. by eexists.
Qed.

Lemma afterwards_admissible : admissible_all afterwards finished.
Proof.
  split; [by vm_compute|]. split; [apply shuffle_b_admissible | done].
Qed.

Lemma afterwards_room :
  rooms (run afterwards finished) !! "r" = Some reshuffled_room.
Proof. vm_compute. reflexivity. Qed.

(** C5 (amended), on the scenario: after the round is over a room is
    created and the roles are shuffled again, which makes [p1] the Mantri.
    A guess that names an unknown target is then refused with 404, the guess
    of the Mantri of the first assignment with 403, and a guess sent by [p1]
    with 400; the store and the record are unchanged. *)
Lemma mantri_guess_once_witness :
  reachable assigned
  ∧ mantri_guess "r" guess_right assigned = (Return right_resp, finished)
  ∧ admissible_all afterwards finished
  ∧ rooms (run afterwards finished) !! "r" = Some reshuffled_room
  ∧ Room.players reshuffled_room = (gs_roundScores right_resp).*1
  ∧ mantri_guess "r" guess_unknown_target (run afterwards finished)
    = (HTTPException 404 "Invalid player id(s)", run afterwards finished)
  ∧ mantri_guess "r" guess_right (run afterwards finished)
    = (HTTPException 403 "Only the Mantri can submit a guess",
       run afterwards finished)
  ∧ mantri_guess "r" guess_by_raja (run afterwards finished)
    = (HTTPException 400 "Round already finished", run afterwards finished)
  ∧ round_record "r" (run afterwards finished) = round_record "r" finished.
Proof.
  assert (Hp1 : "p1" ∈ Room.players reshuffled_room)
    by (apply (bool_decide_unpack _); by vm_compute).
  assert (Hp2 : "p2" ∈ Room.players reshuffled_room)
    by (apply (bool_decide_unpack _); by vm_compute).
  assert (Hp3 : "p3" ∈ Room.players reshuffled_room)
    by (apply (bool_decide_unpack _); by vm_compute).
  assert (Hp9 : "p9" ∉ Room.players reshuffled_room)
    by (apply (bool_decide_unpack _); by vm_compute).
  destruct (mantri_guess_once "r" guess_right assigned right_resp finished
              afterwards guess_unknown_target
              assigned_reachable guess_right_assigned afterwards_admissible)
    as ((ra & Hra & Hroster & H404 & _ & _) & _).
  destruct (mantri_guess_once "r" guess_right assigned right_resp finished
              afterwards guess_right
              assigned_reachable guess_right_assigned afterwards_admissible)
    as ((rb & Hrb & _ & _ & H403 & _) & _ & Hrec & _).
  destruct (mantri_guess_once "r" guess_right assigned right_resp finished
              afterwards guess_by_raja
              assigned_reachable guess_right_assigned afterwards_admissible)
    as ((rc & Hrc & _ & _ & _ & H400) & _).
  rewrite afterwards_room in Hra, Hrb, Hrc.
  injection Hra as <-. injection Hrb as <-. injection Hrc as <-.
  split; [apply assigned_reachable|].
  split; [exact guess_right_assigned|].
  split; [exact afterwards_admissible|].
  split; [exact afterwards_room|]. split; [exact Hroster|].
  split; [apply H404; right; exact Hp9|].
  split; [apply H403; [exact Hp2 | exact Hp3 | simpl; discriminate]|].
  split; [apply H400; [exact Hp1 | exact Hp3 | reflexivity] | exact Hrec].
Defined.

(** * Further properties of the handlers *)

(** ** Failures and reads leave the store alone *)

(** X1: a GET handler returns the store it was given, whatever it answers,
    and a handler that ends in an [HTTPException] has written nothing: the
    store is the one it started from. *)
Theorem refused_or_read_store q s :
  (is_read q = true → handle q s = s)
  ∧ (∀ e, refused q s = Some e → handle q s = s).
Proof.
  split.
  - destruct q; simpl; try done; intros _.
    + apply get_players_store.
    + apply get_my_role_store.
    + apply get_result_store.
  - intros e. destruct q; simpl; unfold failure; try done.
    + unfold join_room. by repeat case_match.
    + unfold get_players. by repeat case_match.
    + unfold assign_roles. by repeat case_match.
    + unfold get_my_role. by repeat case_match.
    + unfold mantri_guess. by repeat case_match.
    + unfold get_result. by repeat case_match.
Qed.

(** X1, on the scenario: a fifth player is refused by the full room. *)
Lemma refused_or_read_store_witness :
  refused (JoinRoom "p5" {| jr_roomId := "r"; jr_name := "Esha" |}) four_players
  = Some (400, "Room is full (4 players max)")
  ∧ handle (JoinRoom "p5" {| jr_roomId := "r"; jr_name := "Esha" |}) four_players
    = four_players.
Proof.
  assert (Href : refused (JoinRoom "p5" {| jr_roomId := "r"; jr_name := "Esha" |})
                   four_players
                 = Some (400, "Room is full (4 players max)"))
    by (vm_compute; reflexivity).
  split; [exact Href|].
  exact (proj2 (refused_or_read_store _ _) _ Href).
Defined.

(** ** Exceptions *)

(** X2: on a store the server can reach, the only Python exception that
    escapes from a handler is the [KeyError] of [get_my_role] asked about a
    room that exists and has no role map yet.  No other request, whatever its
    arguments, ends in an uncaught exception. *)
Theorem raised_only_by_get_my_role q s e :
  reachable s → admissible q s → raised q s = Some e →
  e = KeyError
  ∧ ∃ rid pid r,
      q = GetMyRole rid pid ∧ rooms s !! rid = Some r ∧ Room.roles r = None.
Proof.
  intros Hs%reachable_inv Hq.
  destruct q as [|room_id player_id req|player_id req|rid|rid sh|rid pid
                |rid payload|rid]; simpl in *; unfold escaped.
  - done.
  - done.
  - unfold join_room. by repeat case_match.
  - unfold get_players. destruct (rooms s !! rid) as [r|] eqn:Hr; [|done].
    destruct (players_list_Some (players s) (Room.players r)) as (l & -> & _);
      [|done].
    intros p Hp. destruct (ri_members _ _ _ (Hs _ _ Hr) p Hp) as (? & -> & _).
    by eexists.
  - by destruct (assign_roles_cases rid sh s Hs Hq)
      as [[_ ->]|[(? & _ & _ & ->)|(? & ? & ? & _ & _ & _ & ->)]].
  - unfold get_my_role. destruct (rooms s !! rid) as [r|] eqn:Hr; [|done].
    destruct (Room.roles r) as [m|] eqn:Hm.
    + by destruct (PyDict.get pid m).
    + simpl. intros [= <-]. split; [done|]. by exists rid, pid, r.
  - by destruct (mantri_guess_cases rid payload s Hs)
      as [(c & d & ->)|(? & ? & ? & ? & ? & _ & _ & _ & _ & _ & _ & _ & _ & _
                        & _ & _ & ->)].
  - unfold get_result. by repeat case_match.
Qed.

(** X2, on the scenario: the creator asks for a role before the assignment. *)
Lemma raised_only_by_get_my_role_witness :
  reachable created ∧ admissible (GetMyRole "r" "p1") created
  ∧ raised (GetMyRole "r" "p1") created = Some KeyError
  ∧ KeyError = KeyError
  ∧ ∃ rid pid r,
      GetMyRole "r" "p1" = GetMyRole rid pid
      ∧ rooms created !! rid = Some r ∧ Room.roles r = None.
Proof.
  assert (Hs : reachable created).
  { apply (reachable_handle (CreateRoom "r" "p1" _)); [constructor|].
    split; reflexivity. }
  split; [exact Hs|]. split; [exact I|]. split; [reflexivity|].
  exact (raised_only_by_get_my_role (GetMyRole "r" "p1") created KeyError
           Hs I eq_refl).
Defined.

(** ** The guess: who may send it, and when *)

(** X3: on a reachable store the outcome of [mantri_guess] is decided by
    five tests, in this order: the room is unknown (404); it has no role map
    yet (400); one of the two ids is not on its roster (404); the accuser is
    not the recorded Mantri (403); a guess is already recorded (400).  A
    request that passes them all succeeds and leaves the room finished: the
    recorded Mantri can always close an open round by naming any roster
    member, themselves included. *)
Theorem mantri_guess_outcome rid payload s :
  reachable s →
  (rooms s !! rid = None →
     mantri_guess rid payload s = (HTTPException 404 "Room not found", s))
  ∧ (∀ r, rooms s !! rid = Some r →
       (Room.roles r = None →
          mantri_guess rid payload s
          = (HTTPException 400 "Roles not assigned yet", s))
       ∧ (is_Some (Room.roles r) →
          gr_mantriId payload ∉ Room.players r
          ∨ gr_targetId payload ∉ Room.players r →
          mantri_guess rid payload s
          = (HTTPException 404 "Invalid player id(s)", s))
       ∧ (is_Some (Room.roles r) →
          gr_mantriId payload ∈ Room.players r →
          gr_targetId payload ∈ Room.players r →
          Room.mantriId r ≠ Some (gr_mantriId payload) →
          mantri_guess rid payload s
          = (HTTPException 403 "Only the Mantri can submit a guess", s))
       ∧ (gr_targetId payload ∈ Room.players r →
          Room.mantriId r = Some (gr_mantriId payload) →
          is_Some (Room.guess r) →
          mantri_guess rid payload s
          = (HTTPException 400 "Round already finished", s))
       ∧ (is_Some (Room.roles r) →
          gr_targetId payload ∈ Room.players r →
          Room.mantriId r = Some (gr_mantriId payload) →
          Room.guess r = None →
          ∃ resp s',
            mantri_guess rid payload s = (Return resp, s')
            ∧ status_of rid s' = Some "finished")).
Proof.
  intros Hs%reachable_inv. unfold mantri_guess. split; [by intros ->|].
  intros r Hr. rewrite Hr. pose proof (Hs _ _ Hr) as Hrinv.
  split; [by intros ->|].
  assert (Hcons : ∀ m, Room.roles r = Some m → ∃ e m0, m = e :: m0).
  { intros m Hm. pose proof (ri_roles _ _ _ Hrinv m Hm) as Hok.
    pose proof (roles_ok_length _ _ Hok) as Hlen. destruct Hok as (Hkeys & _).
    destruct m; [by rewrite <-Hkeys in Hlen | by eexists _, _]. }
  assert (Hmid : ∀ m, Room.roles r = Some m →
            Room.mantriId r = Some (gr_mantriId payload) →
            gr_mantriId payload ∈ Room.players r).
  { intros m Hm Hacc.
    destruct (role_map_bijection _ _ _ _ Hrinv Hm)
      as (_ & _ & _ & _ & mid & Hmid & Hin & _). congruence. }
  split; [|split; [|split]].
  - intros [m Hm] Hmem. destruct (Hcons m Hm) as (e & m0 & ->). rewrite Hm.
    by rewrite decide_True.
  - intros [m Hm] Hin1 Hin2 Hacc. destruct (Hcons m Hm) as (e & m0 & ->).
    rewrite Hm. rewrite decide_False by tauto. by rewrite decide_True.
  - intros Hin2 Hacc Hg.
    destruct (ri_status _ _ _ Hrinv) as [Hw|Hf].
    { destruct (ri_waiting _ _ _ Hrinv Hw) as (Hnone & _).
      rewrite Hnone in Hg. by destruct Hg. }
    destruct (ri_finished _ _ _ Hrinv Hf) as ([m Hm] & _).
    pose proof (Hmid m Hm Hacc) as Hin1.
    destruct (Hcons m Hm) as (e & m0 & ->). rewrite Hm.
    rewrite decide_False by tauto. rewrite decide_False by (by intros ?).
    by rewrite decide_True.
  - intros [m Hm] Hin2 Hacc Hg.
    pose proof (Hmid m Hm Hacc) as Hin1.
    assert (Hst : Room.status r ≠ "finished").
    { intros Hf. destruct (ri_finished _ _ _ Hrinv Hf) as (_ & [g Hg'] & _).
      congruence. }
    destruct (mantri_guess_cases rid payload s Hs)
      as [(c & d & Hfail)|(r0 & m' & chor & sc & tbl' & Hr0 & _ & _ & _ & _ & _
                          & _ & _ & _ & _ & _ & Hok)].
    + exfalso. revert Hfail. unfold mantri_guess. rewrite Hr, Hm.
      destruct (Hcons m Hm) as (e & m0 & ->).
      rewrite decide_False by tauto. rewrite decide_False by (by intros ?).
      rewrite decide_False by done. by repeat case_match.
    + unfold mantri_guess in Hok. rewrite Hr in Hok.
      eexists _, _. split; [exact Hok|].
      unfold status_of. simpl. by rewrite lookup_insert_eq.
Qed.

(** X3, on the scenario: the Mantri names themselves; the round closes. *)
Lemma mantri_guess_outcome_witness :
  reachable assigned
  ∧ rooms assigned !! "r" = Some assigned_room
  ∧ is_Some (Room.roles assigned_room)
  ∧ "p2" ∈ Room.players assigned_room
  ∧ Room.mantriId assigned_room = Some "p2"
  ∧ Room.guess assigned_room = None
  ∧ ∃ resp s',
      mantri_guess "r" {| gr_roomId := "r"; gr_mantriId := "p2";
                          gr_targetId := "p2" |} assigned
      = (Return resp, s')
      ∧ status_of "r" s' = Some "finished".
Proof.
  assert (Hr : rooms assigned !! "r" = Some assigned_room)
    by (vm_compute; reflexivity).
  assert (Hin : "p2" ∈ Room.players assigned_room)
    by (apply (bool_decide_unpack _); by vm_compute).
  split; [apply assigned_reachable|]. split; [exact Hr|].
  split; [by eexists|]. split; [exact Hin|]. split; [reflexivity|].
  split; [reflexivity|].
  exact (proj2 (proj2 (proj2 (proj2 (proj2
           (mantri_guess_outcome "r"
              {| gr_roomId := "r"; gr_mantriId := "p2"; gr_targetId := "p2" |}
              assigned assigned_reachable) assigned_room Hr))))
           (ex_intro _ assigned_roles eq_refl) Hin eq_refl eq_refl).
Defined.

(** ** Rosters *)

(** X4: in every reachable store a roster has between one and four
    players and lists no player twice; where roles are assigned there are
    exactly four players and the keys of the role map are the roster, in join
    order; and a guess is recorded only where roles are assigned. *)
Theorem roster_wellformed rid r s :
  reachable s → rooms s !! rid = Some r →
  NoDup (Room.players r)
  ∧ (1 ≤ length (Room.players r) ≤ 4)%nat
  ∧ (∀ m, Room.roles r = Some m →
       m.*1 = Room.players r ∧ length (Room.players r) = 4%nat)
  ∧ (is_Some (Room.guess r) → is_Some (Room.roles r)).
Proof.
  intros Hs%reachable_inv Hr. pose proof (Hs _ _ Hr) as Hrinv.
  split; [by eapply ri_nodup|]. split; [by eapply ri_len|]. split.
  - intros m Hm. pose proof (ri_roles _ _ _ Hrinv m Hm) as Hok.
    split; [by destruct Hok | by eapply roles_ok_length].
  - intros [g Hg]. destruct (ri_status _ _ _ Hrinv) as [Hw|Hf].
    + destruct (ri_waiting _ _ _ Hrinv Hw) as (? & _). congruence.
    + by destruct (ri_finished _ _ _ Hrinv Hf) as (? & _).
Qed.

(** X4, on the finished round of the scenario. *)
Lemma roster_wellformed_witness :
  reachable finished ∧ rooms finished !! "r" = Some over_room
  ∧ NoDup (Room.players over_room)
  ∧ (1 ≤ length (Room.players over_room) ≤ 4)%nat
  ∧ (∀ m, Room.roles over_room = Some m →
       m.*1 = Room.players over_room
       ∧ length (Room.players over_room) = 4%nat)
  ∧ (is_Some (Room.guess over_room) → is_Some (Room.roles over_room)).
Proof.
  split; [apply finished_reachable|]. split; [apply finished_over_room|].
  exact (roster_wellformed "r" over_room finished finished_reachable
           finished_over_room).
Defined.

(** X5: once roles are assigned to a room nobody can join it any more:
    [join_room] is refused with 400 and the store is unchanged, as "room is
    full" while the round is open and as "not accepting joins" once a guess is
    recorded.  The roster that the role map was built from is final. *)
Theorem join_room_after_assignment player_id req s r :
  reachable s → rooms s !! jr_roomId req = Some r → is_Some (Room.roles r) →
  (Room.guess r = None →
     join_room player_id req s
     = (HTTPException 400 "Room is full (4 players max)", s))
  ∧ (is_Some (Room.guess r) →
     join_room player_id req s
     = (HTTPException 400 "Room not accepting joins right now", s)).
Proof.
  intros Hs%reachable_inv Hr [m Hm]. pose proof (Hs _ _ Hr) as Hrinv.
  pose proof (roles_ok_length _ _ (ri_roles _ _ _ Hrinv m Hm)) as Hlen.
  unfold join_room. rewrite Hr.
  destruct (ri_status _ _ _ Hrinv) as [Hw|Hf]; split.
  - intros _. rewrite decide_False by (by intros ?).
    rewrite decide_True by lia. done.
  - intros [g Hg]. destruct (ri_waiting _ _ _ Hrinv Hw) as (? & _). congruence.
  - intros Hg. destruct (ri_finished _ _ _ Hrinv Hf) as (_ & [g Hg'] & _).
    congruence.
  - intros _. rewrite decide_True; [done|]. rewrite Hf. discriminate.
Qed.

(** X5, on the scenario, right after the assignment. *)
Lemma join_room_after_assignment_witness :
  reachable assigned
  ∧ rooms assigned !! "r" = Some assigned_room
  ∧ is_Some (Room.roles assigned_room)
  ∧ Room.guess assigned_room = None
  ∧ join_room "p5" {| jr_roomId := "r"; jr_name := "Esha" |} assigned
    = (HTTPException 400 "Room is full (4 players max)", assigned).
Proof.
  assert (Hr : rooms assigned !! "r" = Some assigned_room)
    by (vm_compute; reflexivity).
  split; [apply assigned_reachable|]. split; [exact Hr|].
  split; [by eexists|]. split; [reflexivity|].
  exact (proj1 (join_room_after_assignment "p5"
                  {| jr_roomId := "r"; jr_name := "Esha" |} assigned
                  assigned_room assigned_reachable Hr
                  (ex_intro _ assigned_roles eq_refl)) eq_refl).
Defined.

(** ** Asking for one's role *)

Lemma zip_get (roster : list string) pid role : ∀ (sh : list Role) i,
  NoDup roster → roster !! i = Some pid → sh !! i = Some role →
  PyDict.get pid (zip roster sh) = Some role.
Proof.
  induction roster as [|k roster IH]; intros sh i Hnd Hpid Hrole; [done|].
  apply NoDup_cons in Hnd as [Hk Hnd].
  destruct sh as [|r0 sh]; [by destruct i|].
  destruct i as [|i]; simpl in *; simplify_eq.
  - by rewrite decide_True.
  - rewrite decide_False; [by eapply IH|].
    intros ->. apply Hk. by eapply list_elem_of_lookup_2.
Qed.

(** X6: after a successful [assign_roles], [get_my_role] tells the player
    at roster position [i] the role at position [i] of the shuffled list, and
    answers "Player not found", as data, for every id that is not on the
    roster; neither call changes the store. *)
Theorem get_my_role_after_assign rid sh s resp s' :
  reachable s → sh ≡ₚ roles →
  assign_roles rid sh s = (Return resp, s') →
  ∃ r, rooms s !! rid = Some r
    ∧ (∀ i pid role, Room.players r !! i = Some pid → sh !! i = Some role →
         get_my_role rid pid s' = (Return (RoleOf pid role), s'))
    ∧ (∀ pid, pid ∉ Room.players r →
         get_my_role rid pid s' = (Return (RoleError "Player not found"), s')).
Proof.
  intros Hs%reachable_inv Hsh Hassign.
  destruct (assign_roles_cases rid sh s Hs Hsh)
    as [[_ Hfail]|[(r0 & _ & _ & Hfail)
                  |(r & mid & resp0 & Hr & Hlen & _ & Hok)]];
    [congruence..|].
  rewrite Hok in Hassign. injection Hassign as _ <-.
  pose proof (ri_nodup _ _ _ (Hs _ _ Hr)) as Hnd.
  exists r. split; [done|].
  unfold get_my_role, set_room. simpl. rewrite lookup_insert_eq. simpl. split.
  - intros i pid role Hpid Hrole. by rewrite (zip_get _ pid role sh i).
  - intros pid Hpid.
    assert (Hnone : PyDict.get pid (zip (Room.players r) sh) = None).
    { apply PyDictFacts.get_None. by rewrite zip_keys. }
    by rewrite Hnone.
Qed.

(** X6, on the scenario: with [shuffle_a], the second player is the Raja. *)
Lemma get_my_role_after_assign_witness :
  reachable four_players ∧ shuffle_a ≡ₚ roles
  ∧ (∃ resp, assign_roles "r" shuffle_a four_players
             = (Return resp, handle (AssignRoles "r" shuffle_a) four_players))
  ∧ get_my_role "r" "p2" (handle (AssignRoles "r" shuffle_a) four_players)
    = (Return (RoleOf "p2" Raja), handle (AssignRoles "r" shuffle_a) four_players).
Proof.
  assert (Hassign : assign_roles "r" shuffle_a four_players
                    = (Return {| ar_roomId := "r"; ar_rolesAssigned := true;
                                 ar_message :=
                                   "Roles assigned. Each player can now view their role privately." |},
                       handle (AssignRoles "r" shuffle_a) four_players))
    by (vm_compute; reflexivity).
  assert (Hr : rooms four_players !! "r" = Some four_room)
    by (vm_compute; reflexivity).
  split; [apply four_players_reachable|].
  split; [apply shuffle_a_admissible|]. split; [by eexists|].
  destruct (get_my_role_after_assign "r" shuffle_a four_players _ _
              four_players_reachable shuffle_a_admissible Hassign)
    as (r & Hr' & Hrole & _).
  rewrite Hr in Hr'. injection Hr' as <-.
  exact (Hrole 1%nat "p2" Raja eq_refl eq_refl).
Defined.

(** ** Listing the players *)

Lemma players_list_insert tbl roster pid p :
  pid ∉ roster →
  players_list (<[pid := p]> tbl) roster = players_list tbl roster.
Proof.
  unfold players_list. induction roster as [|k roster IH]; intros Hpid; [done|].
  apply not_elem_of_cons in Hpid as [Hne Hpid]. simpl.
  rewrite lookup_insert_ne by done. by rewrite IH.
Qed.

Lemma players_list_snoc tbl roster pid p l :
  players_list tbl roster = Some l → tbl !! pid = Some p →
  players_list tbl (roster ++ [pid])
  = Some (l ++ [{| pe_playerId := pid; pe_name := Player.name p |}]).
Proof.
  unfold players_list. revert l. induction roster as [|k roster IH];
    intros l Hl Hp; simpl in *.
  - injection Hl as <-. by rewrite Hp.
  - destruct (tbl !! k) as [pk|]; [|done]. simpl in *.
    destruct (mapM _ roster) as [l0|] eqn:Hl0; [|done]. simpl in *.
    injection Hl as <-. by rewrite (IH l0 eq_refl Hp).
Qed.

(** X7: right after [create_room], on any store, the new room is waiting
    with the creator as its only player, the creator's total score is 0, and
    [get_players] lists exactly the creator under the given name; every other
    room and every other player entry is as before. *)
Theorem create_room_then_get_players room_id player_id req s :
  rooms (handle (CreateRoom room_id player_id req) s) !! room_id
  = Some (Room.mk [player_id] "waiting" None None None None None)
  ∧ players (handle (CreateRoom room_id player_id req) s) !! player_id
    = Some (Player.mk (cr_name req) room_id 0)
  ∧ get_players room_id (handle (CreateRoom room_id player_id req) s)
    = (Return {| pr_roomId := room_id;
                 pr_players := [{| pe_playerId := player_id;
                                   pe_name := cr_name req |}] |},
       handle (CreateRoom room_id player_id req) s)
  ∧ (∀ rid, rid ≠ room_id →
       rooms (handle (CreateRoom room_id player_id req) s) !! rid
       = rooms s !! rid)
  ∧ (∀ pid, pid ≠ player_id →
       players (handle (CreateRoom room_id player_id req) s) !! pid
       = players s !! pid).
Proof.
  simpl. split; [apply lookup_insert_eq|]. split; [apply lookup_insert_eq|].
  split; [|split].
  - unfold get_players, players_list. simpl.
    rewrite lookup_insert_eq. simpl. by rewrite lookup_insert_eq.
  - intros rid Hne. by apply lookup_insert_ne.
  - intros pid Hne. by apply lookup_insert_ne.
Qed.

(** X8: [get_players] lists a room in join order.  When [join_room]
    succeeds with a fresh id, the listing of the room afterwards is the
    listing before followed by the new player under the name given in the
    request. *)
Theorem join_room_then_get_players player_id req s resp s' :
  reachable s → players s !! player_id = None →
  join_room player_id req s = (Return resp, s') →
  ∃ before,
    get_players (jr_roomId req) s
    = (Return {| pr_roomId := jr_roomId req; pr_players := before |}, s)
    ∧ get_players (jr_roomId req) s'
      = (Return {| pr_roomId := jr_roomId req;
                   pr_players :=
                     before ++ [{| pe_playerId := player_id;
                                   pe_name := jr_name req |}] |}, s').
Proof.
  intros Hs%reachable_inv Hfresh. unfold join_room.
  destruct (rooms s !! jr_roomId req) as [r|] eqn:Hr; [|done].
  case_decide; [done|]. case_decide; [done|]. intros [= _ <-].
  pose proof (Hs _ _ Hr) as Hrinv.
  destruct (players_list_Some (players s) (Room.players r)) as (l & Hl & _).
  { intros p Hp. destruct (ri_members _ _ _ Hrinv p Hp) as (? & -> & _).
    by eexists. }
  exists l. unfold get_players. rewrite Hr, Hl. split; [done|]. simpl.
  rewrite lookup_insert_eq. simpl.
  rewrite (players_list_snoc _ _ _ (Player.mk (jr_name req) (jr_roomId req) 0) l).
  - done.
  - rewrite players_list_insert; [done|]. intros Hin.
    destruct (ri_members _ _ _ Hrinv _ Hin) as (? & ? & _). congruence.
  - apply lookup_insert_eq.
Qed.

(** X8, on the scenario: the second player joins the new room. *)
Lemma join_room_then_get_players_witness :
  reachable created ∧ players created !! "p2" = None
  ∧ (∃ resp, join_room "p2" {| jr_roomId := "r"; jr_name := "Bela" |} created
             = (Return resp,
                handle (JoinRoom "p2" {| jr_roomId := "r"; jr_name := "Bela" |})
                  created))
  ∧ get_players "r"
      (handle (JoinRoom "p2" {| jr_roomId := "r"; jr_name := "Bela" |}) created)
    = (Return {| pr_roomId := "r";
                 pr_players := [{| pe_playerId := "p1"; pe_name := "Asha" |};
                                {| pe_playerId := "p2"; pe_name := "Bela" |}] |},
       handle (JoinRoom "p2" {| jr_roomId := "r"; jr_name := "Bela" |}) created).
Proof.
  assert (Hs : reachable created).
  { apply (reachable_handle (CreateRoom "r" "p1" _)); [constructor|].
    split; reflexivity. }
  assert (Hfresh : players created !! "p2" = None) by (vm_compute; reflexivity).
  assert (Hjoin : join_room "p2" {| jr_roomId := "r"; jr_name := "Bela" |} created
                  = (Return {| ir_roomId := "r"; ir_playerId := "p2";
                               ir_message := "Joined room (2/4)." |},
                     handle (JoinRoom "p2" {| jr_roomId := "r"; jr_name := "Bela" |})
                       created))
    by (vm_compute; reflexivity).
  split; [exact Hs|]. split; [exact Hfresh|]. split; [by eexists|].
  destruct (join_room_then_get_players "p2" _ created _ _ Hs Hfresh Hjoin)
    as (before & Hbefore & Hafter).
  assert (Hb : before = [{| pe_playerId := "p1"; pe_name := "Asha" |}]).
  { assert (Hget : get_players "r" created
                   = (Return {| pr_roomId := "r";
                                pr_players := [{| pe_playerId := "p1";
                                                  pe_name := "Asha" |}] |},
                      created)) by (vm_compute; reflexivity).
    change (jr_roomId _) with "r" in Hbefore.
    rewrite Hget in Hbefore. by injection Hbefore as <-. }
  rewrite Hb in Hafter. exact Hafter.
Defined.

(** ** Reading the result *)



(** ** What a request keeps *)

Lemma get_set (d : PyDict.t Z) k k' v :
  PyDict.get k' (PyDict.set k v d)
  = if decide (k = k') then Some v else PyDict.get k' d.
Proof.
  case_decide as Hk.
  - subst. apply PyDictFacts.get_set_eq.
  - by apply PyDictFacts.get_set_ne.
Qed.

(** No round score is negative. *)
Lemma round_outcome_nonneg m chor payload msg sc pid pts :
  round_outcome m chor payload = Some (msg, sc) →
  PyDict.get pid sc = Some pts → 0 ≤ pts.
Proof.
  assert (Hbase : ∀ k z, PyDict.get k (base_scores m) = Some z → 0 ≤ z).
  { intros k z. rewrite base_scores_get.
    destruct (PyDict.get k m) as [[]|]; simpl; intros [= <-]; lia. }
  unfold round_outcome. case_decide.
  - intros [= _ <-]. apply Hbase.
  - destruct (PyDict.get chor (base_scores m)) as [z|] eqn:Hz; [|done].
    intros [= _ <-]. rewrite !get_set. apply Hbase in Hz.
    repeat case_decide; [intros [= <-]; simpl; lia..|apply Hbase].
Qed.

(** X10: nothing is taken back.  Through every admissible request on a
    reachable store, each room stays, its roster keeps its players in place
    (it can only grow at the end), an assigned role map stays assigned, and a
    recorded guess and a ["finished"] status stay as they are; each player
    entry stays with its name and room, and its total score never goes
    down. *)
Theorem handle_monotone q s :
  reachable s → admissible q s →
  (∀ rid r, rooms s !! rid = Some r →
     ∃ r', rooms (handle q s) !! rid = Some r'
       ∧ Room.players r `prefix_of` Room.players r'
       ∧ (is_Some (Room.roles r) → is_Some (Room.roles r'))
       ∧ (∀ g, Room.guess r = Some g → Room.guess r' = Some g)
       ∧ (Room.status r = "finished" → Room.status r' = "finished"))
  ∧ (∀ pid p, players s !! pid = Some p →
       ∃ p', players (handle q s) !! pid = Some p'
         ∧ Player.name p' = Player.name p
         ∧ Player.roomId p' = Player.roomId p
         ∧ Player.totalScore p ≤ Player.totalScore p').
Proof.
  intros Hs%reachable_inv Hq.
  set (P := λ s' : State,
    (∀ rid r, rooms s !! rid = Some r →
       ∃ r', rooms s' !! rid = Some r'
         ∧ Room.players r `prefix_of` Room.players r'
         ∧ (is_Some (Room.roles r) → is_Some (Room.roles r'))
         ∧ (∀ g, Room.guess r = Some g → Room.guess r' = Some g)
         ∧ (Room.status r = "finished" → Room.status r' = "finished"))
    ∧ (∀ pid p, players s !! pid = Some p →
         ∃ p', players s' !! pid = Some p'
           ∧ Player.name p' = Player.name p
           ∧ Player.roomId p' = Player.roomId p
           ∧ Player.totalScore p ≤ Player.totalScore p')).
  change (P (handle q s)).
  assert (Hroom : ∀ r : Room.t,
            Room.players r `prefix_of` Room.players r
            ∧ (is_Some (Room.roles r) → is_Some (Room.roles r))
            ∧ (∀ g, Room.guess r = Some g → Room.guess r = Some g)
            ∧ (Room.status r = "finished" → Room.status r = "finished"))
    by done.
  assert (Hplayer : ∀ p : Player.t,
            Player.name p = Player.name p ∧ Player.roomId p = Player.roomId p
            ∧ Player.totalScore p ≤ Player.totalScore p)
    by (intros; repeat split; lia).
  assert (Hsame : P s).
  { split; [intros rid r Hr; by exists r | intros pid p Hp; by exists p]. }
  destruct q as [|room_id player_id req|player_id req|rid0|rid0 sh|rid0 pid0
                |rid0 payload|rid0]; simpl in *.
  - done.
  - destruct Hq as [Hroom0 Hplayer0]. split; simpl.
    + intros rid r Hr. exists r. split; [|done].
      rewrite lookup_insert_ne; [done|]. intros ->. congruence.
    + intros pid p Hp. exists p. split; [|done].
      rewrite lookup_insert_ne; [done|]. intros ->. congruence.
  - unfold join_room.
    destruct (rooms s !! jr_roomId req) as [r0|] eqn:Hr0; [|done].
    case_decide as Hst; [done|]. case_decide as Hlen; [done|]. split; simpl.
    + intros rid r Hr. destruct (decide (jr_roomId req = rid)) as [Heq|Hne].
      * rewrite Heq in *. simplify_eq. eexists.
        split; [apply lookup_insert_eq|]. simpl.
        split; [by apply prefix_app_r|]. split; [done|]. split; [done|].
        congruence.
      * exists r. by rewrite lookup_insert_ne.
    + intros pid p Hp. exists p. split; [|done].
      rewrite lookup_insert_ne; [done|]. intros ->. congruence.
  - by rewrite get_players_store.
  - destruct (assign_roles_cases rid0 sh s Hs Hq)
      as [[_ ->]|[(r0 & _ & _ & ->)|(r0 & mid & resp & Hr0 & _ & _ & ->)]];
      [done..|].
    split; unfold set_room; simpl; [|intros pid p Hp; by exists p].
    intros rid r Hr. destruct (decide (rid0 = rid)) as [->|Hne].
    + simplify_eq. eexists. split; [apply lookup_insert_eq|]. simpl.
      split; [done|]. split; [by eexists | done].
    + exists r. by rewrite lookup_insert_ne.
  - by rewrite get_my_role_store.
  - destruct (mantri_guess_cases rid0 payload s Hs)
      as [(c & d & ->)|(r0 & m & chor & sc & tbl' & Hr0 & Hm & Hw & _ & _ & _
                        & _ & Hout & _ & _ & Htbl' & ->)]; [done|].
    destruct (ri_waiting _ _ _ (Hs _ _ Hr0) Hw) as (Hg0 & _).
    split; simpl.
    + intros rid r Hr. destruct (decide (rid0 = rid)) as [->|Hne].
      * simplify_eq. eexists. split; [apply lookup_insert_eq|]. simpl.
        split; [done|]. split; [done|]. split; [|done].
        intros g Hg. congruence.
      * exists r. by rewrite lookup_insert_ne.
    + intros pid p Hp. rewrite Htbl', Hp.
      destruct (PyDict.get pid sc) as [pts|] eqn:Hpts; [|by exists p].
      eexists. split; [done|]. simpl. split; [done|]. split; [done|].
      pose proof (round_outcome_nonneg _ _ _ _ _ _ _ Hout Hpts). lia.
  - by rewrite get_result_store.
Qed.

(** X10, on the scenario: the wrong guess takes the Chor [p3] from 0 to
    800. *)
Lemma handle_monotone_witness :
  reachable assigned ∧ admissible (MantriGuess "r" guess_wrong) assigned
  ∧ players assigned !! "p3" = Some (Player.mk "Chit" "r" 0)
  ∧ ∃ p', players (handle (MantriGuess "r" guess_wrong) assigned) !! "p3"
          = Some p'
          ∧ Player.name p' = "Chit" ∧ Player.roomId p' = "r"
          ∧ 0 ≤ Player.totalScore p'.
Proof.
  assert (Hp3 : players assigned !! "p3" = Some (Player.mk "Chit" "r" 0))
    by (vm_compute; reflexivity).
  split; [apply assigned_reachable|]. split; [exact I|]. split; [exact Hp3|].
  exact (proj2 (handle_monotone (MantriGuess "r" guess_wrong) assigned
                  assigned_reachable I) "p3" _ Hp3).
Defined.

(** X11: rooms do not interfere.  An admissible request on a reachable
    store leaves every room other than the one it names exactly as it was,
    together with the whole table entry (name, room and total score) of each
    of that room's players. *)
Theorem other_rooms_untouched q s rid r :
  reachable s → admissible q s →
  rooms s !! rid = Some r → target q ≠ Some rid →
  rooms (handle q s) !! rid = Some r
  ∧ ∀ pid, pid ∈ Room.players r →
      players (handle q s) !! pid = players s !! pid.
Proof.
  intros Hs%reachable_inv Hq Hr Htarget.
  pose proof (Hs _ _ Hr) as Hrinv.
  assert (Hfresh : ∀ pid, players s !! pid = None → pid ∉ Room.players r).
  { intros pid Hnone Hin.
    destruct (ri_members _ _ _ Hrinv pid Hin) as (p & Hp & _). congruence. }
  destruct q as [|room_id player_id req|player_id req|rid0|rid0 sh|rid0 pid0
                |rid0 payload|rid0]; simpl in *.
  - done.
  - destruct Hq as [_ Hplayer]. split.
    + rewrite lookup_insert_ne; [done|]. congruence.
    + intros pid Hpid. rewrite lookup_insert_ne; [done|].
      intros ->. by apply (Hfresh pid).
  - unfold join_room.
    destruct (rooms s !! jr_roomId req) as [r0|] eqn:Hr0; [|done].
    case_decide; [done|]. case_decide; [done|]. simpl. split.
    + rewrite lookup_insert_ne; [done|]. congruence.
    + intros pid Hpid. rewrite lookup_insert_ne; [done|].
      intros ->. by apply (Hfresh pid).
  - by rewrite get_players_store.
  - destruct (assign_roles_cases rid0 sh s Hs Hq)
      as [[_ ->]|[(r0 & _ & _ & ->)|(r0 & mid & resp & Hr0 & _ & _ & ->)]];
      [done..|].
    unfold set_room. simpl. split; [|done].
    rewrite lookup_insert_ne; [done|]. congruence.
  - by rewrite get_my_role_store.
  - destruct (mantri_guess_cases rid0 payload s Hs)
      as [(c & d & ->)|(r0 & m & chor & sc & tbl' & Hr0 & _ & _ & _ & _ & _
                        & _ & _ & Hkeys & _ & Htbl' & ->)]; [done|].
    simpl. split.
    + rewrite lookup_insert_ne; [done|]. congruence.
    + intros pid Hpid. rewrite Htbl'.
      destruct (PyDict.get pid sc) as [pts|] eqn:Hpts; [|done].
      assert (Hin0 : pid ∈ Room.players r0).
      { rewrite <-Hkeys. apply PyDictFacts.get_is_Some. by eexists. }
      destruct (ri_members _ _ _ Hrinv pid Hpid) as (p & Hp & Hrid).
      destruct (ri_members _ _ _ (Hs _ _ Hr0) pid Hin0) as (p0 & Hp0 & Hrid0).
      congruence.
  - by rewrite get_result_store.
Qed.

Lemma two_rooms_reachable : reachable two_rooms.
Proof.
  apply (reachable_handle (CreateRoom "q" "p5" _)); [apply finished_reachable|].
  split; vm_compute; reflexivity.
Qed.

Lemma two_rooms_second : rooms two_rooms !! "q" = Some second_room.
Proof. vm_compute. reflexivity. Qed.

(** X11, on the scenario: the roles of the finished room are shuffled again
    while a second room exists. *)
Lemma other_rooms_untouched_witness :
  reachable two_rooms ∧ admissible (AssignRoles "r" shuffle_b) two_rooms
  ∧ rooms two_rooms !! "q" = Some second_room
  ∧ target (AssignRoles "r" shuffle_b) ≠ Some "q"
  ∧ rooms (handle (AssignRoles "r" shuffle_b) two_rooms) !! "q"
    = Some second_room
  ∧ ∀ pid, pid ∈ Room.players second_room →
      players (handle (AssignRoles "r" shuffle_b) two_rooms) !! pid
      = players two_rooms !! pid.
Proof.
  assert (Hne : target (AssignRoles "r" shuffle_b) ≠ Some "q")
    by (simpl; discriminate).
  split; [apply two_rooms_reachable|].
  split; [apply shuffle_b_admissible|].
  split; [apply two_rooms_second|]. split; [exact Hne|].
  exact (other_rooms_untouched (AssignRoles "r" shuffle_b) two_rooms "q"
           second_room two_rooms_reachable shuffle_b_admissible
           two_rooms_second Hne).
Defined.

(** ** The player table *)

Lemma round_score_eq r r' pid :
  Room.scores r' = Room.scores r → round_score r' pid = round_score r pid.
Proof. unfold round_score. by intros ->. Qed.

(** Every admissible request preserves the invariant of the player table. *)
Lemma handle_player_inv q s :
  inv s → player_inv s → admissible q s → player_inv (handle q s).
Proof.
  intros Hinv Hpl Hq.
  destruct q as [|room_id player_id req|player_id req|rid0|rid0 sh|rid0 pid0
                |rid0 payload|rid0]; simpl in *.
  - done.
  - destruct Hq as [Hroom Hplayer]. intros pid p. simpl.
    rewrite lookup_insert. case_decide as Hpid.
    + intros [= <-]. subst. simpl. eexists.
      split; [apply lookup_insert_eq|]. split; [left | done].
    + intros Hp. destruct (Hpl pid p Hp) as (r & Hr & Hin & Htot).
      exists r. split; [|done]. rewrite lookup_insert_ne; [done|].
      intros Heq. rewrite <-Heq in Hr. congruence.
  - unfold join_room.
    destruct (rooms s !! jr_roomId req) as [r0|] eqn:Hr0; [|done].
    case_decide as Hst; [done|]. case_decide as Hlen; [done|].
    destruct (ri_waiting _ _ _ (Hinv _ _ Hr0) Hst) as (_ & Hsc0 & _).
    intros pid p. simpl. rewrite lookup_insert. case_decide as Hpid.
    + intros [= <-]. subst. simpl. eexists.
      split; [apply lookup_insert_eq|]. simpl.
      split; [apply elem_of_app; right; left|].
      unfold round_score. simpl. by rewrite Hsc0.
    + intros Hp. destruct (Hpl pid p Hp) as (r & Hr & Hin & Htot).
      destruct (decide (jr_roomId req = Player.roomId p)) as [Heq|Hne].
      * rewrite <-Heq in *. simplify_eq. eexists.
        split; [apply lookup_insert_eq|]. simpl.
        split; [apply elem_of_app; by left | done].
      * exists r. by rewrite lookup_insert_ne.
  - by rewrite get_players_store.
  - destruct (assign_roles_cases rid0 sh s Hinv Hq)
      as [[_ ->]|[(r0 & _ & _ & ->)|(r0 & mid & resp & Hr0 & _ & _ & ->)]];
      [done..|].
    intros pid p. unfold set_room. simpl. intros Hp.
    destruct (Hpl pid p Hp) as (r & Hr & Hin & Htot).
    destruct (decide (rid0 = Player.roomId p)) as [Heq|Hne].
    + rewrite <-Heq in *. simplify_eq. eexists.
      split; [apply lookup_insert_eq|]. by simpl.
    + exists r. by rewrite lookup_insert_ne.
  - by rewrite get_my_role_store.
  - destruct (mantri_guess_cases rid0 payload s Hinv)
      as [(c & d & ->)|(r0 & m & chor & sc & tbl' & Hr0 & _ & Hw & _ & _ & _
                        & _ & _ & Hkeys & _ & Htbl' & ->)]; [done|].
    destruct (ri_waiting _ _ _ (Hinv _ _ Hr0) Hw) as (_ & Hsc0 & _).
    intros pid p'. simpl. rewrite Htbl'.
    destruct (PyDict.get pid sc) as [pts|] eqn:Hpts.
    + destruct (players s !! pid) as [p|] eqn:Hp; [|done].
      simpl. intros [= <-]. simpl.
      assert (Hin0 : pid ∈ Room.players r0).
      { rewrite <-Hkeys. apply PyDictFacts.get_is_Some. by eexists. }
      destruct (ri_members _ _ _ (Hinv _ _ Hr0) pid Hin0) as (p0 & Hp0 & Hrid0).
      destruct (Hpl pid p Hp) as (r & Hr & Hin & Htot).
      assert (p0 = p) as -> by congruence. rewrite Hrid0 in *.
      assert (r = r0) as -> by congruence.
      eexists. split; [apply lookup_insert_eq|]. simpl. split; [done|].
      rewrite Htot. unfold round_score. simpl. rewrite Hsc0, Hpts. simpl. lia.
    + intros Hp. destruct (Hpl pid p' Hp) as (r & Hr & Hin & Htot).
      destruct (decide (rid0 = Player.roomId p')) as [Heq|Hne].
      * rewrite <-Heq in *. assert (r = r0) as -> by congruence.
        rewrite <-Hkeys in Hin. apply PyDictFacts.get_is_Some in Hin as [? ?].
        congruence.
      * exists r. by rewrite lookup_insert_ne.
  - by rewrite get_result_store.
Qed.

Lemma reachable_player_inv s : reachable s → player_inv s.
Proof.
  induction 1 as [|q s Hs IH Hq].
  - intros pid p Hp. simpl in Hp. by rewrite lookup_empty in Hp.
  - apply handle_player_inv; [by apply reachable_inv | done..].
Qed.

(** X12: in every reachable store each entry of the player table belongs
    to exactly one room: the room named by its [roomId] exists and lists the
    player, and no other roster does.  The player's total score is the
    player's round score in that room, and 0 as long as the room has no
    round scores. *)
Theorem player_in_one_room s pid p :
  reachable s → players s !! pid = Some p →
  ∃ r, rooms s !! Player.roomId p = Some r
    ∧ pid ∈ Room.players r
    ∧ (∀ rid' r', rooms s !! rid' = Some r' → pid ∈ Room.players r' →
         rid' = Player.roomId p)
    ∧ (Room.scores r = None → Player.totalScore p = 0)
    ∧ (∀ sc, Room.scores r = Some sc →
         PyDict.get pid sc = Some (Player.totalScore p)).
Proof.
  intros Hs Hp. pose proof (reachable_inv _ Hs) as Hinv.
  destruct (reachable_player_inv _ Hs pid p Hp) as (r & Hr & Hin & Htot).
  exists r. split; [done|]. split; [done|]. split; [|split].
  - intros rid' r' Hr' Hin'.
    destruct (ri_members _ _ _ (Hinv _ _ Hr') pid Hin') as (p' & Hp' & <-).
    congruence.
  - intros Hsc. rewrite Htot. unfold round_score. by rewrite Hsc.
  - intros sc Hsc. rewrite Htot. unfold round_score. rewrite Hsc. simpl.
    pose proof (Hinv _ _ Hr) as Hrinv.
    destruct (ri_status _ _ _ Hrinv) as [Hw|Hf].
    { destruct (ri_waiting _ _ _ Hrinv Hw) as (_ & ? & _). congruence. }
    destruct (ri_finished _ _ _ Hrinv Hf) as (_ & _ & sc' & Hsc' & _ & Hkeys).
    assert (sc' = sc) as -> by congruence.
    rewrite <-Hkeys in Hin. apply PyDictFacts.get_is_Some in Hin as [z Hz].
    by rewrite Hz.
Qed.

(** X12, on the finished round of the scenario: the Mantri [p2]. *)
Lemma player_in_one_room_witness :
  reachable finished
  ∧ players finished !! "p2" = Some (Player.mk "Bela" "r" 800)
  ∧ ∃ r, rooms finished !! "r" = Some r
      ∧ "p2" ∈ Room.players r
      ∧ (∀ rid' r', rooms finished !! rid' = Some r' → "p2" ∈ Room.players r' →
           rid' = "r")
      ∧ (Room.scores r = None → 800 = 0)
      ∧ (∀ sc, Room.scores r = Some sc → PyDict.get "p2" sc = Some 800).
Proof.
  assert (Hp : players finished !! "p2" = Some (Player.mk "Bela" "r" 800))
    by (vm_compute; reflexivity).
  split; [apply finished_reachable|]. split; [exact Hp|].
  exact (player_in_one_room finished "p2" _ finished_reachable Hp).
Defined.

(** ** Finished rooms *)

(** X13: a finished room can still be shuffled.  [assign_roles] on a room
    whose round is over succeeds like on any room of four, and [get_result]
    afterwards reports the new role map beside the guess, round scores and
    leaderboard of the round that was played: the roles shown need no longer
    be the ones the scores were computed from. *)
Theorem assign_roles_after_finish rid sh s r g sc :
  reachable s → sh ≡ₚ roles →
  rooms s !! rid = Some r → Room.guess r = Some g → Room.scores r = Some sc →
  ∃ resp s',
    assign_roles rid sh s = (Return resp, s')
    ∧ get_result rid s'
      = (Return {| rr_roomId := rid; rr_roles := zip (Room.players r) sh;
                   rr_guess := Some g; rr_roundScores := Some sc;
                   rr_leaderboard := sc |}, s').
Proof.
  intros Hs%reachable_inv Hsh Hr Hg Hsc. pose proof (Hs _ _ Hr) as Hrinv.
  destruct (ri_status _ _ _ Hrinv) as [Hw|Hf].
  { destruct (ri_waiting _ _ _ Hrinv Hw) as (? & _). congruence. }
  destruct (ri_finished _ _ _ Hrinv Hf) as ([m Hm] & _ & sc' & Hsc' & Hlb & _).
  assert (sc' = sc) as -> by congruence.
  pose proof (roles_ok_length _ _ (ri_roles _ _ _ Hrinv m Hm)) as Hlen.
  destruct (assign_roles_cases rid sh s Hs Hsh)
    as [[Hnone _]|[(r0 & Hr0 & Hlen0 & _)
                  |(r0 & mid & resp & Hr0 & _ & _ & Hok)]];
    [congruence| |].
  { rewrite Hr in Hr0. injection Hr0 as <-. done. }
  rewrite Hr in Hr0. injection Hr0 as <-.
  eexists _, _. split; [exact Hok|].
  unfold get_result, set_room. simpl. rewrite lookup_insert_eq. simpl.
  rewrite decide_False by (by intros ?). by rewrite Hg, Hsc, Hlb.
Qed.

(** X13, on the finished round of the scenario, shuffled with [shuffle_b]. *)
Lemma assign_roles_after_finish_witness :
  reachable finished ∧ shuffle_b ≡ₚ roles
  ∧ rooms finished !! "r" = Some over_room
  ∧ Room.guess over_room = Some (Guess.mk "p2" "p3")
  ∧ Room.scores over_room = Some right_scores
  ∧ ∃ resp s',
      assign_roles "r" shuffle_b finished = (Return resp, s')
      ∧ get_result "r" s'
        = (Return {| rr_roomId := "r";
                     rr_roles := zip (Room.players over_room) shuffle_b;
                     rr_guess := Some (Guess.mk "p2" "p3");
                     rr_roundScores := Some right_scores;
                     rr_leaderboard := right_scores |}, s').
Proof.
  split; [apply finished_reachable|]. split; [apply shuffle_b_admissible|].
  split; [apply finished_over_room|]. split; [reflexivity|].
  split; [reflexivity|].
  exact (assign_roles_after_finish "r" shuffle_b finished over_room _ _
           finished_reachable shuffle_b_admissible finished_over_room
           eq_refl eq_refl).
Defined.

Lemma handle_scores_inv q s :
  inv s → scores_inv s → admissible q s → scores_inv (handle q s).
Proof.
  intros Hinv Hsc Hq.
  destruct q as [|room_id player_id req|player_id req|rid0|rid0 sh|rid0 pid0
                |rid0 payload|rid0]; simpl in *.
  - done.
  - intros rid r sc. simpl. rewrite lookup_insert. case_decide.
    + by intros [= <-].
    + apply Hsc.
  - unfold join_room.
    destruct (rooms s !! jr_roomId req) as [r0|] eqn:Hr0; [|done].
    case_decide; [done|]. case_decide; [done|].
    intros rid r sc. simpl. rewrite lookup_insert. case_decide.
    + intros [= <-]. simpl. by apply (Hsc _ _ _ Hr0).
    + apply Hsc.
  - by rewrite get_players_store.
  - destruct (assign_roles_cases rid0 sh s Hinv Hq)
      as [[_ ->]|[(r0 & _ & _ & ->)|(r0 & mid & resp & Hr0 & _ & _ & ->)]];
      [done..|].
    intros rid r sc. unfold set_room. simpl. rewrite lookup_insert.
    case_decide.
    + intros [= <-]. simpl. by apply (Hsc _ _ _ Hr0).
    + apply Hsc.
  - by rewrite get_my_role_store.
  - destruct (mantri_guess_cases rid0 payload s Hinv)
      as [(c & d & ->)|(r0 & m & chor & sc0 & tbl' & Hr0 & Hm & _ & _ & _ & Hacc
                        & Hchor & Hout & _ & _ & _ & ->)]; [done|].
    pose proof (Hinv _ _ Hr0) as Hrinv.
    pose proof (room_inv_roles_NoDup _ _ _ _ Hrinv Hm) as Hnd.
    destruct (ri_roles _ _ _ Hrinv m Hm) as (_ & Hvals & mid & Hmid & Hholder).
    assert (mid = gr_mantriId payload) as -> by congruence.
    destruct (round_outcome_scores m chor payload Hnd Hvals Hchor Hholder)
      as (sc1 & Hout1 & _ & Htotal & _).
    assert (sc1 = sc0) as -> by congruence.
    intros rid r sc. simpl. rewrite lookup_insert.
    destruct (decide (rid0 = rid)) as [_|_].
    + intros [= <-]. simpl. by intros [= <-].
    + apply Hsc.
  - by rewrite get_result_store.
Qed.

Lemma reachable_scores_inv s : reachable s → scores_inv s.
Proof.
  induction 1 as [|q s Hs IH Hq].
  - intros rid r sc Hr. simpl in Hr. by rewrite lookup_empty in Hr.
  - apply handle_scores_inv; [by apply reachable_inv | done..].
Qed.

(** X14: the points of a round stay in the room.  In every reachable store
    a stored round score map adds up to 2300, and so do the cumulative total
    scores of the four players of the room it belongs to. *)
Theorem finished_room_totals rid r sc s :
  reachable s → rooms s !! rid = Some r → Room.scores r = Some sc →
  total sc = 2300 ∧ roster_total s r = 2300.
Proof.
  intros Hs Hr Hsc. pose proof (reachable_inv _ Hs) as Hinv.
  pose proof (reachable_scores_inv _ Hs rid r sc Hr Hsc) as Htotal.
  split; [done|]. pose proof (Hinv _ _ Hr) as Hrinv.
  destruct (ri_status _ _ _ Hrinv) as [Hw|Hf].
  { destruct (ri_waiting _ _ _ Hrinv Hw) as (_ & ? & _). congruence. }
  destruct (ri_finished _ _ _ Hrinv Hf) as (_ & _ & sc' & Hsc' & _ & Hkeys).
  assert (sc' = sc) as -> by congruence.
  rewrite <-Htotal. unfold roster_total, total. f_equal.
  rewrite <-lookup_all_keys by (rewrite Hkeys; by eapply ri_nodup).
  rewrite Hkeys. apply list_fmap_ext. intros i pid Hi.
  assert (Hin : pid ∈ Room.players r) by (by eapply list_elem_of_lookup_2).
  destruct (ri_members _ _ _ Hrinv pid Hin) as (p & Hp & Hrid).
  destruct (reachable_player_inv _ Hs pid p Hp) as (r' & Hr' & _ & Htot).
  rewrite Hrid, Hr in Hr'. injection Hr' as <-.
  rewrite Hp. simpl. rewrite Htot. unfold round_score. by rewrite Hsc.
Qed.

(** X14, on the scenario after the wrong guess. *)
Lemma finished_room_totals_witness :
  reachable (handle (MantriGuess "r" guess_wrong) assigned)
  ∧ rooms (handle (MantriGuess "r" guess_wrong) assigned) !! "r"
    = Some (finished_room guess_wrong wrong_scores (Some wrong_scores)
              assigned_room)
  ∧ total wrong_scores = 2300
  ∧ roster_total (handle (MantriGuess "r" guess_wrong) assigned)
      (finished_room guess_wrong wrong_scores (Some wrong_scores) assigned_room)
    = 2300.
Proof.
  assert (Hs : reachable (handle (MantriGuess "r" guess_wrong) assigned)).
  { apply (reachable_handle (MantriGuess "r" _)); [apply assigned_reachable|].
    exact I. }
  assert (Hr : rooms (handle (MantriGuess "r" guess_wrong) assigned) !! "r"
               = Some (finished_room guess_wrong wrong_scores
                         (Some wrong_scores) assigned_room))
    by (vm_compute; reflexivity).
  split; [exact Hs|]. split; [exact Hr|].
  exact (finished_room_totals "r" _ wrong_scores _ Hs Hr eq_refl).
Defined.

(** ** The scenarios of the specification *)

Example create_then_join :
  (join_room "p2" {| jr_roomId := "r"; jr_name := "Bela" |} created).1
  = Return {| ir_roomId := "r"; ir_playerId := "p2";
              ir_message := "Joined room (2/4)." |}.
Proof. vm_compute. reflexivity. Qed.

Example scenario_correct_guess :
  (mantri_guess "r" {| gr_roomId := "r"; gr_mantriId := "p2"; gr_targetId := "p3" |}
     assigned).1
  = Return {| gs_roomId := "r"; gs_message := msg_correct;
              gs_roundScores := [("p1", 1000); ("p2", 800); ("p3", 0); ("p4", 500)] |}.
Proof. vm_compute. reflexivity. Qed.

Example scenario_incorrect_guess :
  (mantri_guess "r" {| gr_roomId := "r"; gr_mantriId := "p2"; gr_targetId := "p1" |}
     assigned).1
  = Return {| gs_roomId := "r"; gs_message := msg_incorrect;
              gs_roundScores := [("p1", 1000); ("p2", 0); ("p3", 800); ("p4", 500)] |}.
Proof. vm_compute. reflexivity. Qed.

Example scenario_incorrect_totals :
  let s := (mantri_guess "r"
              {| gr_roomId := "r"; gr_mantriId := "p2"; gr_targetId := "p1" |}
              assigned).2 in
  Player.totalScore <$> players s !! "p3" = Some 800
  ∧ Player.totalScore <$> players s !! "p2" = Some 0
  ∧ Room.status <$> rooms s !! "r" = Some "finished".
Proof. vm_compute. auto. Qed.
